(** * chordy: the Pico W BLE chorded-keyboard firmware (firmware/main.py)

    A shallow embedding of the firmware: the [struct.pack] calls that build
    the HID records, the [BLEKeyboard] object with its connection set and
    its calls on the BLE stack, the button scan and the debounced poll loop
    of [main].

    Bytes and integers are [Z]; a [bytes] value is a [list Z] of values in
    [0, 256).  The connection set is a [gset Z], the combination map a
    [gmap] from chords to entries.  The BLE object is represented by the
    history of the calls made on it.  Code that can raise runs in a small
    state-and-exception monad; the state survives a raise, as the
    mutations of a Python object do.  The endless loop is run over a
    finite list of what happens to the firmware: poll ticks, each with
    the pin levels read and the tick count, and connection events
    delivered between ticks. *)

From Stdlib Require Import ZArith Lia String Ascii.
From stdpp Require Import base option list sorting gmap sets.

Local Open Scope Z_scope.

(** ** The runtime's [struct] module

    [struct] belongs to the Python runtime, not to the firmware.  Only the
    little-endian, unaligned formats over [B] and [H] are used.  Runtimes
    differ on what [pack] does with a value count that does not match the
    format or with a value out of range: CPython raises [struct.error],
    builds of MicroPython without those checks drop surplus values, leave
    missing ones zero and truncate wide ones.  Both behaviours are
    modelled; they agree whenever the count matches and the values fit. *)

Inductive struct_checks : Set := Checked | Unchecked.

Inductive fmt_code : Set := fmt_B | fmt_H.

Definition fmt_size (c : fmt_code) : nat :=
  match c with fmt_B => 1%nat | fmt_H => 2%nat end.

Definition fmt_bound (c : fmt_code) : Z := 2 ^ (8 * Z.of_nat (fmt_size c)).

Definition calcsize (fmt : list fmt_code) : nat :=
  foldr (fun c n => (fmt_size c + n)%nat) 0%nat fmt.

(** The [n] low bytes of [v], least significant first. *)
Fixpoint le_bytes (n : nat) (v : Z) : list Z :=
  match n with
  | O => []
  | S n' => Z.land v 255 :: le_bytes n' (Z.shiftr v 8)
  end.

Fixpoint le_value (bs : list Z) : Z :=
  match bs with
  | [] => 0
  | b :: bs' => Z.lor b (Z.shiftl (le_value bs') 8)
  end.

Definition pack_value (chk : struct_checks) (c : fmt_code) (v : Z)
  : option (list Z) :=
  if bool_decide (0 <= v < fmt_bound c) then Some (le_bytes (fmt_size c) v)
  else match chk with
       | Checked => None
       | Unchecked => Some (le_bytes (fmt_size c) v)
       end.

Fixpoint struct_pack (chk : struct_checks) (fmt : list fmt_code)
    (vals : list Z) : option (list Z) :=
  match fmt, vals with
  | [], [] => Some []
  | [], _ :: _ =>
      match chk with Checked => None | Unchecked => Some [] end
  | c :: fmt', [] =>
      match chk with
      | Checked => None
      | Unchecked =>
          rest ← struct_pack chk fmt' [];
          Some (replicate (fmt_size c) 0 ++ rest)
      end
  | c :: fmt', v :: vals' =>
      bs ← pack_value chk c v;
      rest ← struct_pack chk fmt' vals';
      Some (bs ++ rest)
  end.

Fixpoint struct_unpack (fmt : list fmt_code) (data : list Z)
  : option (list Z) :=
  match fmt with
  | [] => match data with [] => Some [] | _ :: _ => None end
  | c :: fmt' =>
      if bool_decide (fmt_size c ≤ length data)%nat then
        rest ← struct_unpack fmt' (drop (fmt_size c) data);
        Some (le_value (take (fmt_size c) data) :: rest)
      else None
  end.

(** The two format strings of the firmware. *)
Definition fmt_HHBB : list fmt_code := [fmt_H; fmt_H; fmt_B; fmt_B].
Definition fmt_BB6B : list fmt_code := [fmt_B; fmt_B] ++ replicate 6 fmt_B.

(** ** Module constants *)

Definition _IRQ_CENTRAL_CONNECT : Z := 1.
Definition _IRQ_CENTRAL_DISCONNECT : Z := 2.

(** [_HID_INFO = struct.pack("<HHBB", 0x0111, 0x0000, 0x01, 0x01)].  A
    module constant: were the pack to raise, the import would fail and
    there would be no firmware, so the constant is the packed value. *)
Definition _HID_INFO_packed (chk : struct_checks) : option (list Z) :=
  struct_pack chk fmt_HHBB [0x0111; 0x0000; 0x01; 0x01].

Definition _HID_INFO : list Z := default [] (_HID_INFO_packed Checked).

Definition _HID_REPORT_MAP : list Z :=
  [ 0x05; 0x01;   (* USAGE_PAGE (Generic Desktop) *)
    0x09; 0x06;   (* USAGE (Keyboard) *)
    0xA1; 0x01;   (* COLLECTION (Application) *)
    0x85; 0x01;   (*   REPORT_ID (1) *)
    0x05; 0x07;   (*   USAGE_PAGE (Keyboard) *)
    0x19; 0xE0;   (*   USAGE_MINIMUM (Keyboard LeftControl) *)
    0x29; 0xE7;   (*   USAGE_MAXIMUM (Keyboard Right GUI) *)
    0x15; 0x00;   (*   LOGICAL_MINIMUM (0) *)
    0x25; 0x01;   (*   LOGICAL_MAXIMUM (1) *)
    0x75; 0x01;   (*   REPORT_SIZE (1) *)
    0x95; 0x08;   (*   REPORT_COUNT (8) *)
    0x81; 0x02;   (*   INPUT (Data,Var,Abs) *)
    0x95; 0x01;   (*   REPORT_COUNT (1) *)
    0x75; 0x08;   (*   REPORT_SIZE (8) *)
    0x81; 0x01;   (*   INPUT (Const,Array,Abs) - Reserved byte *)
    0x95; 0x06;   (*   REPORT_COUNT (6) *)
    0x75; 0x08;   (*   REPORT_SIZE (8) *)
    0x15; 0x00;   (*   LOGICAL_MINIMUM (0) *)
    0x25; 0x65;   (*   LOGICAL_MAXIMUM (101) *)
    0x05; 0x07;   (*   USAGE_PAGE (Keyboard) *)
    0x19; 0x00;   (*   USAGE_MINIMUM (Reserved) *)
    0x29; 0x65;   (*   USAGE_MAXIMUM (Keyboard Application) *)
    0x81; 0x00;   (*   INPUT (Data,Ary,Abs) *)
    0xC0 ].

(** [bytes(bluetooth.UUID(0x1812))]: the 16-bit UUID, little-endian. *)
Definition _HID_UUID : list Z := le_bytes 2 0x1812.

(** [KEY_CODES], a dict from key names to HID usage codes. *)
Definition KEY_CODES (name : string) : Z :=
  (match name with
   | "A" => 0x04 | "B" => 0x05 | "C" => 0x06 | "D" => 0x07 | "E" => 0x08
   | "F" => 0x09 | "G" => 0x0A | "H" => 0x0B | "I" => 0x0C | "J" => 0x0D
   | "K" => 0x0E | "L" => 0x0F | "M" => 0x10 | "N" => 0x11 | "O" => 0x12
   | "P" => 0x13 | "Q" => 0x14 | "R" => 0x15 | "S" => 0x16 | "T" => 0x17
   | "U" => 0x18 | "V" => 0x19 | "W" => 0x1A | "X" => 0x1B | "Y" => 0x1C
   | "Z" => 0x1D | "1" => 0x1E | "2" => 0x1F | "3" => 0x20 | "4" => 0x21
   | "5" => 0x22 | "6" => 0x23 | "7" => 0x24 | "8" => 0x25 | "9" => 0x26
   | "0" => 0x27 | "ENTER" => 0x28 | "ESC" => 0x29 | "BACKSPACE" => 0x2A
   | "TAB" => 0x2B | "SPACE" => 0x2C
   | _ => 0
   end)%string.

(** A chord is the tuple of pressed button indices; a combination map
    sends chords to [(modifier, [keycodes])]. *)
Abbreviation chord := (list nat).
Abbreviation combo_map := (gmap (list nat) (Z * list Z)).

Definition COMBO_MAP : combo_map :=
  <[ [0%nat] := (0x00, [KEY_CODES "F"]) ]> (
  <[ [1%nat] := (0x00, [KEY_CODES "J"]) ]> (
  <[ [2%nat] := (0x00, [KEY_CODES "D"]) ]> (
  <[ [3%nat] := (0x00, [KEY_CODES "K"]) ]> (
  <[ [4%nat] := (0x00, [KEY_CODES "S"]) ]> (
  <[ [5%nat] := (0x00, [KEY_CODES "L"]) ]> (
  <[ [0%nat; 1%nat] := (0x00, [KEY_CODES "SPACE"]) ]> (
  <[ [2%nat; 3%nat] := (0x00, [KEY_CODES "ENTER"]) ]> (
  <[ [4%nat; 5%nat] := (0x00, [KEY_CODES "TAB"]) ]> (
  <[ [0%nat; 2%nat] := (0x02, [KEY_CODES "A"]) ]> (
  <[ [1%nat; 3%nat] := (0x02, [KEY_CODES "H"]) ]> (
  <[ [0%nat; 5%nat] := (0x00, [KEY_CODES "BACKSPACE"]) ]> ∅))))))))))).

Definition BUTTON_PINS : list nat := [0; 1; 2; 3; 4; 5]%nat.
Definition DEBOUNCE_MS : Z := 25.
Definition POLL_INTERVAL_MS : Z := 10.

(** ** State and exceptions

    [M S A]: a computation over a mutable state [S] that returns an [A] or
    raises ([None]).  The state reached when the exception is raised is
    kept: what was sent before a raise stays sent. *)

Definition M (S A : Type) : Type := S -> S * option A.

#[global] Instance M_ret {S} : MRet (M S) :=
  fun A (a : A) s => (s, Some a).

#[global] Instance M_bind {S} : MBind (M S) :=
  fun A B (f : A -> M S B) (m : M S A) s =>
    match m s with
    | (s', Some a) => f a s'
    | (s', None) => (s', None)
    end.

Definition raise {S A} : M S A := fun s => (s, None).
Definition get {S} : M S S := fun s => (s, Some s).
Definition modify {S} (f : S -> S) : M S unit := fun s => (f s, Some tt).

(** [struct.pack] raising inside a method. *)
Definition or_raise {S A} (o : option A) : M S A :=
  match o with Some a => mret a | None => raise end.

(** A [for] loop whose body has effects. *)
Fixpoint for_each {S X} (xs : list X) (body : X -> M S unit) : M S unit :=
  match xs with
  | [] => mret tt
  | x :: xs' => body x ≫= fun _ => for_each xs' body
  end.

(** ** The BLE object

    The radio stack is a collaborator; what the firmware does to it is the
    sequence of calls it makes, oldest first.  The calls themselves are
    taken not to raise. *)

Inductive ble_call : Type :=
| Active (on : bool)
| IrqHandler
| GattsRegisterServices
| GattsWrite (value_handle : Z) (data : list Z)
| GapAdvertise (interval_us : Z) (adv_data : list Z)
| GattsNotify (conn_handle value_handle : Z) (data : list Z).

Record BLEKeyboard : Type := {
  _ble : list ble_call;
  _report_handle : Z;
  _report_map_handle : Z;
  _info_handle : Z;
  _control_handle : Z;
  _connections : gset Z;
  _payload : list Z
}.

Definition ble_called (c : ble_call) (self : BLEKeyboard) : BLEKeyboard :=
  {| _ble := _ble self ++ [c];
     _report_handle := _report_handle self;
     _report_map_handle := _report_map_handle self;
     _info_handle := _info_handle self;
     _control_handle := _control_handle self;
     _connections := _connections self;
     _payload := _payload self |}.

Definition with_connections (f : gset Z -> gset Z) (self : BLEKeyboard)
  : BLEKeyboard :=
  {| _ble := _ble self;
     _report_handle := _report_handle self;
     _report_map_handle := _report_map_handle self;
     _info_handle := _info_handle self;
     _control_handle := _control_handle self;
     _connections := f (_connections self);
     _payload := _payload self |}.

(** [name.encode()]: a Rocq string is already a sequence of bytes. *)
Definition encode (name : string) : list Z :=
  (fun a => Z.of_N (N_of_ascii a)) <$> list_ascii_of_string name.

(** [payload.extend((len(value) + 1, ad_type))] raises once
    [len(value) + 1] is above 255; the model agrees with the code for a
    value of at most 254 bytes. *)
Definition _append (ad_type : Z) (value : list Z) (payload : list Z)
  : list Z :=
  (payload ++ [Z.of_nat (length value) + 1; ad_type]) ++ value.

(** [services] holds [bytes(uuid)] for each UUID.  The [limited_disc] and
    [br_edr] arguments are not used by the body. *)
Definition advertising_payload (name : option string)
    (services : option (list (list Z))) : list Z :=
  let payload := [] in
  let payload :=
    match name with
    | Some n => if bool_decide (n = EmptyString) then payload
                else _append 0x09 (encode n) payload
    | None => payload
    end in
  match services with
  | Some uuids =>
      foldl (fun payload b =>
               if bool_decide (length b = 2%nat) then _append 0x03 b payload
               else if bool_decide (length b = 16%nat)
                    then _append 0x07 b payload
               else payload) payload uuids
  | None => payload
  end.

Module BLEKeyboard.

Definition _advertise : M BLEKeyboard unit :=
  self ← get;
  modify (ble_called (GapAdvertise 100000 (_payload self))).

(** [handles] is what [gatts_register_services] returns. *)
Definition __init__ (handles : Z * Z * Z * Z) (name : string)
  : BLEKeyboard :=
  let '(report_handle, report_map_handle, info_handle, control_handle) :=
    handles in
  let payload := advertising_payload (Some name) (Some [_HID_UUID]) in
  {| _ble := [ Active true; IrqHandler; GattsRegisterServices;
               GattsWrite report_map_handle _HID_REPORT_MAP;
               GattsWrite info_handle _HID_INFO;
               GapAdvertise 100000 payload ];
     _report_handle := report_handle;
     _report_map_handle := report_map_handle;
     _info_handle := info_handle;
     _control_handle := control_handle;
     _connections := ∅;
     _payload := payload |}.

(** [data] is the stack's [(conn_handle, addr_type, addr)]. *)
Definition _irq (event : Z) (data : Z * Z * list Z)
  : M BLEKeyboard unit :=
  if bool_decide (event = _IRQ_CENTRAL_CONNECT) then
    let '(conn_handle, _, _) := data in
    modify (with_connections (fun s => {[conn_handle]} ∪ s))
  else if bool_decide (event = _IRQ_CENTRAL_DISCONNECT) then
    let '(conn_handle, _, _) := data in
    modify (with_connections (fun s => s ∖ {[conn_handle]})) ≫= fun _ =>
    _advertise
  else mret tt.

Definition send_report (report : list Z) : M BLEKeyboard unit :=
  self ← get;
  for_each (elements (_connections self)) (fun conn_handle =>
    modify (ble_called
              (GattsNotify conn_handle (_report_handle self) report))).

(** The report that [key_press] builds (its first two statements);
    [None] when [struct.pack] raises. *)
Definition key_press_report (chk : struct_checks) (modifier : Z)
    (keycodes : list Z) : option (list Z) :=
  let padded :=
    keycodes ++ replicate (Z.to_nat (6 - Z.of_nat (length keycodes))) 0x00
  in
  struct_pack chk fmt_BB6B (0x01 :: modifier :: padded).

Definition key_press (chk : struct_checks) (modifier : Z)
    (keycodes : list Z) : M BLEKeyboard unit :=
  report ← or_raise (key_press_report chk modifier keycodes);
  send_report report.

Definition release_all_report (chk : struct_checks) : option (list Z) :=
  struct_pack chk fmt_BB6B [0x01; 0x00; 0; 0; 0; 0; 0; 0].

Definition release_all (chk : struct_checks) : M BLEKeyboard unit :=
  report ← or_raise (release_all_report chk);
  send_report report.

End BLEKeyboard.

(** ** Buttons and the poll loop *)

(** [pin.value()] of each button, in [BUTTON_PINS] order; a pressed button
    reads 0 (pull-up). *)
Fixpoint scan_from (index : nat) (levels : list Z) : chord :=
  match levels with
  | [] => []
  | v :: rest =>
      if bool_decide (v = 0) then index :: scan_from (S index) rest
      else scan_from (S index) rest
  end.

Definition scan_buttons (levels : list Z) : chord := scan_from 0 levels.

(** [utime.ticks_diff] of the runtime: the signed difference of two tick
    counts that wrap at [TICKS_PERIOD]. *)
Definition TICKS_PERIOD : Z := 2 ^ 30.

Definition ticks_diff (a b : Z) : Z :=
  (a - b + TICKS_PERIOD / 2) mod TICKS_PERIOD - TICKS_PERIOD / 2.

(** The locals of [main] that live across iterations. *)
Record main_frame : Type := {
  keyboard : BLEKeyboard;
  last_state : chord;
  last_change : Z
}.

Definition on_keyboard {A} (m : M BLEKeyboard A) : M main_frame A :=
  fun fr =>
    let '(kb, r) := m (keyboard fr) in
    ({| keyboard := kb; last_state := last_state fr;
        last_change := last_change fr |}, r).

Definition accept (state : chord) (now : Z) (fr : main_frame) : main_frame :=
  {| keyboard := keyboard fr; last_state := state; last_change := now |}.

(** One iteration of [while True], given what [scan_buttons] reads and
    what [utime.ticks_ms()] returns.  [cfg] is the global [COMBO_MAP]. *)
Definition loop_body (chk : struct_checks) (cfg : combo_map)
    (levels : list Z) (now : Z) : M main_frame unit :=
  let state := scan_buttons levels in
  fr ← get;
  if bool_decide (state ≠ last_state fr)
     && bool_decide (ticks_diff now (last_change fr) > DEBOUNCE_MS)
  then
    modify (accept state now) ≫= fun _ =>
    on_keyboard (BLEKeyboard.release_all chk) ≫= fun _ =>
    match cfg !! state with
    | Some (modifier, keycodes) =>
        on_keyboard (BLEKeyboard.key_press chk modifier keycodes)
    | None => mret tt
    end
  else mret tt.

(** What happens to the firmware: a poll tick, or a connection event that
    the stack delivers between two ticks. *)
Inductive occurrence : Type :=
| Tick (levels : list Z) (now : Z)
| Interrupt (event : Z) (data : Z * Z * list Z).

Definition step (chk : struct_checks) (cfg : combo_map) (o : occurrence)
  : M main_frame unit :=
  match o with
  | Tick levels now => loop_body chk cfg levels now
  | Interrupt event data => on_keyboard (BLEKeyboard._irq event data)
  end.

(** The loop over a finite prefix of what happens; a raise ends it. *)
Fixpoint run (chk : struct_checks) (cfg : combo_map) (os : list occurrence)
  : M main_frame unit :=
  match os with
  | [] => mret tt
  | o :: os' => step chk cfg o ≫= fun _ => run chk cfg os'
  end.

(** [main] up to the loop: [now] is the first [utime.ticks_ms()]. *)
Definition main_start (handles : Z * Z * Z * Z) (now : Z) : main_frame :=
  {| keyboard := BLEKeyboard.__init__ handles "ChordyPad";
     last_state := [];
     last_change := now |}.

Definition main (chk : struct_checks) (handles : Z * Z * Z * Z) (now : Z)
    (os : list occurrence) : main_frame * option unit :=
  run chk COMBO_MAP os (main_start handles now).

(** ** Vocabulary of the statements *)

(** A value that fits a [B] slot. *)
Definition is_byte (v : Z) : Prop := 0 <= v < 256.

(** The keyboard after further calls [cs] on its BLE object. *)
Definition logged (cs : list ble_call) (self : BLEKeyboard) : BLEKeyboard :=
  {| _ble := _ble self ++ cs;
     _report_handle := _report_handle self;
     _report_map_handle := _report_map_handle self;
     _info_handle := _info_handle self;
     _control_handle := _control_handle self;
     _connections := _connections self;
     _payload := _payload self |}.

(** One notification of [report] for each connection of [self], in the
    order the connection set is iterated. *)
Definition notifications (self : BLEKeyboard) (report : list Z)
  : list ble_call :=
  (fun conn_handle => GattsNotify conn_handle (_report_handle self) report)
    <$> elements (_connections self).

(** The frame after [state] was accepted at [now] and calls [cs] made. *)
Definition accepted (state : chord) (now : Z) (cs : list ble_call)
    (fr : main_frame) : main_frame :=
  {| keyboard := logged cs (keyboard fr);
     last_state := state;
     last_change := now |}.

(** How many of the calls [cs] are notifications to [conn_handle]. *)
Definition notifies (conn_handle : Z) (c : ble_call) : bool :=
  match c with
  | GattsNotify conn _ _ => bool_decide (conn = conn_handle)
  | _ => false
  end.

Definition notified (conn_handle : Z) (cs : list ble_call) : nat :=
  length (filter (fun c => Is_true (notifies conn_handle c)) cs).

(** The report that [release_all] packs. *)
Definition RELEASE_ALL : list Z := [1; 0; 0; 0; 0; 0; 0; 0].

(** What the BLE object of the frame's keyboard has been called with. *)
Definition history (fr : main_frame) : list ble_call := _ble (keyboard fr).

(** The contract of a combination map: each entry is a modifier byte
    with at most six keycode bytes. *)
Definition within_contract (cfg : combo_map) : Prop :=
  map_Forall (fun _ e => is_byte e.1 ∧ Forall is_byte e.2
                         ∧ (length e.2 <= 6)%nat) cfg.

(** A combination map with one entry of seven keycodes. *)
Definition surplus_map : combo_map :=
  {[ [0%nat] := (0x00, [0x04; 0x05; 0x06; 0x07; 0x08; 0x09; 0x0A]) ]}.

(** Closes a goal about concrete inputs by running the definitions. *)
Ltac by_evaluation :=
  vm_compute; repeat split; try (intros ?; discriminate); reflexivity.

(** A chord as a scan of [n] buttons produces it: ascending indices
    below [n]. *)
Definition chord_of (n : nat) (c : chord) : Prop :=
  StronglySorted lt c ∧ Forall (fun i => (i < n)%nat) c.

(** Pin levels of [n] buttons with exactly the buttons of [c] pressed. *)
Definition levels_of (n : nat) (c : chord) : list Z :=
  (fun i => if bool_decide (i ∈ c) then 0 else 1) <$> seq 0 n.

(** Reading an advertising payload back as its [length, type, value]
    records; [None] when the bytes are not a sequence of such records. *)
Fixpoint ad_records_from (fuel : nat) (payload : list Z)
  : option (list (Z * list Z)) :=
  match payload with
  | [] => Some []
  | len :: rest =>
      match fuel, rest with
      | S fuel', ad_type :: value_etc =>
          let n := Z.to_nat (len - 1) in
          if bool_decide (1 <= len) && bool_decide (n ≤ length value_etc)%nat
          then
            records ← ad_records_from fuel' (drop n value_etc);
            Some ((ad_type, take n value_etc) :: records)
          else None
      | _, _ => None
      end
  end.

Definition ad_records (payload : list Z) : option (list (Z * list Z)) :=
  ad_records_from (length payload) payload.

(** The record that [advertising_payload] emits for [bytes(uuid)], if
    any. *)
Definition service_record (b : list Z) : list (Z * list Z) :=
  if bool_decide (length b = 2%nat) then [(0x03, b)]
  else if bool_decide (length b = 16%nat) then [(0x07, b)]
  else [].

(** The record that [advertising_payload] emits for the name, if any. *)
Definition name_record (name : option string) : list (Z * list Z) :=
  match name with
  | Some n => if bool_decide (n = EmptyString) then [] else [(0x09, encode n)]
  | None => []
  end.

(** The bytes of one [length, type, value] record. *)
Definition ad_record_bytes (r : Z * list Z) : list Z :=
  [Z.of_nat (length r.2) + 1; r.1] ++ r.2.

(** The calls the keyboard makes once it is set up: a notification of an
    eight-byte report with report id 1 on the report handle, or an
    advertisement of the payload at the fixed interval. *)
Definition keyboard_call (self : BLEKeyboard) (c : ble_call) : Prop :=
  match c with
  | GattsNotify _ value_handle data =>
      value_handle = _report_handle self ∧ length data = 8%nat
      ∧ Forall is_byte data ∧ data !! 0%nat = Some 1
  | GapAdvertise interval_us adv_data =>
      interval_us = 100000 ∧ adv_data = _payload self
  | _ => False
  end.

(** The fields of the keyboard that are set once in [__init__]. *)
Definition same_setup (self self' : BLEKeyboard) : Prop :=
  _report_handle self' = _report_handle self
  ∧ _report_map_handle self' = _report_map_handle self
  ∧ _info_handle self' = _info_handle self
  ∧ _control_handle self' = _control_handle self
  ∧ _payload self' = _payload self.

(** The layout of the value of the HID Information characteristic
    0x2A4A: bcdHID as a little-endian 16-bit field, then the country code
    and the flags, one byte each. *)
Definition fmt_HBB : list fmt_code := [fmt_H; fmt_B; fmt_B].

Definition is_tick (o : occurrence) : Prop :=
  match o with Tick _ _ => True | Interrupt _ _ => False end.

(** ** [struct]: packing and unpacking *)

Section Struct.

Implicit Types (chk : struct_checks) (c : fmt_code) (v : Z).

Lemma length_le_bytes n v : length (le_bytes n v) = n.
Proof. revert v; induction n as [|n IH]; intros v; simpl; [done|]. by rewrite IH. Qed.

Lemma le_value_le_bytes n v :
  0 <= v < 2 ^ (8 * Z.of_nat n) -> le_value (le_bytes n v) = v.
Proof.
  revert v; induction n as [|n IH]; intros v Hv.
  - simpl in *. lia.
  - cbn [le_bytes le_value]. rewrite IH.
    + apply Z.bits_inj'; intros i Hi.
      rewrite Z.lor_spec, Z.land_spec.
      change 255 with (Z.ones 8).
      destruct (Z.ltb_spec i 8).
      * rewrite Z.ones_spec_low, Z.shiftl_spec_low by lia.
        by rewrite andb_true_r, orb_false_r.
      * rewrite Z.ones_spec_high, Z.shiftl_spec, Z.shiftr_spec by lia.
        rewrite andb_false_r. cbn [orb]. f_equal; lia.
    + rewrite Z.shiftr_div_pow2 by lia.
      replace (8 * Z.of_nat (S n)) with (8 + 8 * Z.of_nat n) in Hv by lia.
      rewrite Z.pow_add_r in Hv by lia.
      split; [apply Z.div_pos; lia|].
      apply Z.div_lt_upper_bound; lia.
Qed.

Lemma le_bytes_byte v : is_byte v -> le_bytes 1 v = [v].
Proof.
  intros Hv. cbn [le_bytes]. f_equal.
  change 255 with (Z.ones 8). rewrite Z.land_ones by lia.
  apply Z.mod_small. exact Hv.
Qed.

Lemma pack_value_fits chk c v :
  0 <= v < fmt_bound c -> pack_value chk c v = Some (le_bytes (fmt_size c) v).
Proof. intros Hv. unfold pack_value. by rewrite bool_decide_eq_true_2. Qed.

(** Values that fit their slots pack, on either runtime, to
    [calcsize fmt] bytes that unpack to the same values. *)
Lemma struct_unpack_pack chk fmt vals :
  Forall2 (fun c v => 0 <= v < fmt_bound c) fmt vals ->
  ∃ data, struct_pack chk fmt vals = Some data
          ∧ length data = calcsize fmt
          ∧ struct_unpack fmt data = Some vals.
Proof.
  induction 1 as [|c v fmt vals Hv _ (data & Hp & Hl & Hu)].
  - by exists [].
  - exists (le_bytes (fmt_size c) v ++ data). cbn [struct_pack struct_unpack].
    rewrite (pack_value_fits _ _ _ Hv), Hp. cbn.
    rewrite length_app, length_le_bytes, Hl.
    rewrite bool_decide_eq_true_2 by lia.
    rewrite drop_app_length', take_app_length' by (by rewrite length_le_bytes).
    rewrite Hu. cbn. rewrite le_value_le_bytes by exact Hv. done.
Qed.

(** Bytes in [B] slots are packed as they are. *)
Lemma struct_pack_bytes chk vals :
  Forall is_byte vals ->
  struct_pack chk (replicate (length vals) fmt_B) vals = Some vals.
Proof.
  induction 1 as [|v vals Hv _ IH]; [done|].
  cbn [length replicate struct_pack].
  rewrite pack_value_fits by exact Hv.
  change (fmt_size fmt_B) with 1%nat.
  by rewrite le_bytes_byte, IH.
Qed.

Lemma struct_unpack_bytes data :
  Forall is_byte data ->
  struct_unpack (replicate (length data) fmt_B) data = Some data.
Proof.
  induction 1 as [|v data Hv _ IH]; [done|].
  cbn [length replicate struct_unpack fmt_size].
  rewrite bool_decide_eq_true_2 by (cbn; lia).
  cbn [drop take]. rewrite drop_0, take_0, IH. cbn.
  f_equal. f_equal. rewrite Z.shiftl_0_l. apply Z.lor_0_r.
Qed.

(** A checking [pack] wants exactly as many values as the format has
    slots. *)
Lemma struct_pack_checked_count fmt vals data :
  struct_pack Checked fmt vals = Some data -> length vals = length fmt.
Proof.
  revert vals data.
  induction fmt as [|c fmt IH]; intros [|v vals] data; cbn; try done.
  destruct (pack_value Checked c v); cbn; [|done].
  destruct (struct_pack Checked fmt vals) eqn:Hrest; cbn; [|done].
  intros _. f_equal. by eapply IH.
Qed.

(** An unchecking [pack] looks at as many values as the format has
    slots and no further. *)
Lemma struct_pack_unchecked_surplus fmt vals :
  (length fmt <= length vals)%nat ->
  struct_pack Unchecked fmt vals
  = struct_pack Unchecked fmt (take (length fmt) vals).
Proof.
  revert vals.
  induction fmt as [|c fmt IH]; intros [|v vals] Hlen; cbn in *;
    try done; try lia.
  rewrite <- IH by lia. done.
Qed.

End Struct.

(** ** The keyboard object *)

Section Keyboard.

Implicit Types (chk : struct_checks) (self : BLEKeyboard)
  (report : list Z) (cs : list ble_call).

Lemma logged_nil self : logged [] self = self.
Proof. destruct self. unfold logged. cbn. by rewrite app_nil_r. Qed.

Lemma logged_app cs1 cs2 self :
  logged cs2 (logged cs1 self) = logged (cs1 ++ cs2) self.
Proof. unfold logged. cbn. by rewrite app_assoc. Qed.

Lemma for_each_called {X} (call : X -> ble_call) (xs : list X) self :
  for_each xs (fun x => modify (ble_called (call x))) self
  = (logged (call <$> xs) self, Some tt).
Proof.
  revert self. induction xs as [|x xs IH]; intros self.
  - cbn. by rewrite logged_nil.
  - cbn [for_each]. unfold mbind, M_bind, modify at 1.
    rewrite IH. change (ble_called (call x) self) with (logged [call x] self).
    by rewrite logged_app.
Qed.

(** [send_report] notifies each connection once and changes nothing but
    the history of the BLE object; it does not raise. *)
Lemma send_report_spec report self :
  BLEKeyboard.send_report report self
  = (logged (notifications self report) self, Some tt).
Proof.
  unfold BLEKeyboard.send_report, mbind, M_bind, get.
  apply for_each_called.
Qed.

Lemma release_all_report_bytes chk :
  BLEKeyboard.release_all_report chk = Some [1; 0; 0; 0; 0; 0; 0; 0].
Proof. by destruct chk. Qed.

Lemma release_all_spec chk self :
  BLEKeyboard.release_all chk self
  = (logged (notifications self [1; 0; 0; 0; 0; 0; 0; 0]) self, Some tt).
Proof.
  unfold BLEKeyboard.release_all, mbind, M_bind.
  rewrite release_all_report_bytes. cbn [or_raise mret M_ret].
  apply send_report_spec.
Qed.

Lemma key_press_sends chk modifier keycodes report self :
  BLEKeyboard.key_press_report chk modifier keycodes = Some report ->
  BLEKeyboard.key_press chk modifier keycodes self
  = (logged (notifications self report) self, Some tt).
Proof.
  intros Hr. unfold BLEKeyboard.key_press, mbind, M_bind.
  rewrite Hr. cbn [or_raise mret M_ret]. apply send_report_spec.
Qed.

Lemma key_press_raises chk modifier keycodes self :
  BLEKeyboard.key_press_report chk modifier keycodes = None ->
  BLEKeyboard.key_press chk modifier keycodes self = (self, None).
Proof.
  intros Hr. unfold BLEKeyboard.key_press, mbind, M_bind. by rewrite Hr.
Qed.

(** Up to six keycode bytes: the report is the report id, the modifier
    and the keycodes followed by zeros up to six slots. *)
Lemma key_press_report_bytes chk modifier keycodes :
  is_byte modifier -> Forall is_byte keycodes ->
  (length keycodes <= 6)%nat ->
  BLEKeyboard.key_press_report chk modifier keycodes
  = Some (1 :: modifier
            :: keycodes ++ replicate (6 - length keycodes)%nat 0).
Proof.
  intros Hm Hk Hlen. unfold BLEKeyboard.key_press_report.
  replace (Z.to_nat (6 - Z.of_nat (length keycodes)))
    with (6 - length keycodes)%nat by lia.
  set (padded := keycodes ++ replicate (6 - length keycodes)%nat 0).
  assert (Hpl : length padded = 6%nat).
  { unfold padded. rewrite length_app, length_replicate. lia. }
  assert (Hbytes : Forall is_byte (1 :: modifier :: padded)).
  { apply Forall_cons; split; [unfold is_byte; lia|].
    apply Forall_cons; split; [done|]. unfold padded.
    apply Forall_app; split; [done|].
    apply Forall_replicate. unfold is_byte; lia. }
  pose proof (struct_pack_bytes chk _ Hbytes) as Hp.
  cbn [length] in Hp. rewrite Hpl in Hp. exact Hp.
Qed.

(** More than six keycodes: nothing is padded and [pack] gets more than
    its eight values.  A checking runtime raises; an unchecking one
    packs the first six keycodes. *)
Lemma key_press_report_surplus_checked modifier keycodes :
  (6 < length keycodes)%nat ->
  BLEKeyboard.key_press_report Checked modifier keycodes = None.
Proof.
  intros Hlen. unfold BLEKeyboard.key_press_report.
  destruct (struct_pack _ _ _) as [data|] eqn:Hp; [|done].
  apply struct_pack_checked_count in Hp.
  cbn in Hp. rewrite length_app in Hp. lia.
Qed.

Lemma key_press_report_surplus_unchecked modifier keycodes :
  is_byte modifier -> Forall is_byte keycodes ->
  (6 < length keycodes)%nat ->
  BLEKeyboard.key_press_report Unchecked modifier keycodes
  = Some (1 :: modifier :: take 6 keycodes).
Proof.
  intros Hm Hk Hlen. unfold BLEKeyboard.key_press_report.
  replace (Z.to_nat (6 - Z.of_nat (length keycodes))) with 0%nat by lia.
  cbn [replicate]. rewrite app_nil_r.
  rewrite struct_pack_unchecked_surplus by (cbn; lia).
  change (take (length fmt_BB6B) (1 :: modifier :: keycodes))
    with (1 :: modifier :: take 6 keycodes).
  assert (Hbytes : Forall is_byte (1 :: modifier :: take 6 keycodes)).
  { apply Forall_cons; split; [unfold is_byte; lia|].
    apply Forall_cons; split; [done|]. by apply Forall_take. }
  pose proof (struct_pack_bytes Unchecked _ Hbytes) as Hp.
  cbn [length] in Hp. rewrite length_take in Hp.
  replace (6 `min` length keycodes)%nat with 6%nat in Hp by lia.
  exact Hp.
Qed.

End Keyboard.

(** ** The poll loop *)

Section Loop.

Context (chk : struct_checks) (cfg : combo_map).
Implicit Types (fr : main_frame) (levels : list Z) (now : Z).

Lemma notifications_logged cs self report :
  notifications (logged cs self) report = notifications self report.
Proof. done. Qed.

Lemma on_keyboard_accept state now fr (m : M BLEKeyboard unit) cs r :
  m (keyboard fr) = (logged cs (keyboard fr), r) ->
  on_keyboard m (accept state now fr) = (accepted state now cs fr, r).
Proof. intros Hm. unfold on_keyboard, accept. cbn. by rewrite Hm. Qed.

Lemma on_keyboard_accepted state now fr (m : M BLEKeyboard unit) cs cs' r :
  m (logged cs (keyboard fr)) = (logged cs' (logged cs (keyboard fr)), r) ->
  on_keyboard m (accepted state now cs fr)
  = (accepted state now (cs ++ cs') fr, r).
Proof.
  intros Hm. unfold on_keyboard, accepted. cbn [keyboard].
  rewrite Hm, logged_app. done.
Qed.

(** A tick whose sample equals the stable chord, or that comes within
    the window, does nothing at all. *)
Lemma loop_body_rejected levels now fr :
  scan_buttons levels = last_state fr
  ∨ ticks_diff now (last_change fr) <= DEBOUNCE_MS ->
  loop_body chk cfg levels now fr = (fr, Some tt).
Proof.
  intros Hrej. unfold loop_body, mbind, M_bind, get.
  destruct Hrej as [Heq | Hsoon].
  - by rewrite (bool_decide_eq_false_2 _ (fun H => H Heq)).
  - rewrite (bool_decide_eq_false_2 (_ > _)) by lia.
    by rewrite andb_false_r.
Qed.

(** An accepted change: the frame is updated, release-all goes out, and
    then the entry of the new chord decides. *)
Lemma loop_body_accepted levels now fr :
  scan_buttons levels ≠ last_state fr ->
  ticks_diff now (last_change fr) > DEBOUNCE_MS ->
  loop_body chk cfg levels now fr
  = let fr1 := accepted (scan_buttons levels) now
                 (notifications (keyboard fr) RELEASE_ALL) fr in
    match cfg !! scan_buttons levels with
    | Some (modifier, keycodes) =>
        on_keyboard (BLEKeyboard.key_press chk modifier keycodes) fr1
    | None => (fr1, Some tt)
    end.
Proof.
  intros Hne Hlate. unfold loop_body, mbind, M_bind, get.
  rewrite !bool_decide_eq_true_2 by done. cbn [andb].
  unfold modify at 1.
  erewrite on_keyboard_accept by apply release_all_spec.
  fold RELEASE_ALL. cbn zeta.
  by destruct (cfg !! scan_buttons levels) as [[modifier keycodes]|].
Qed.

Lemma loop_body_mapped levels now fr modifier keycodes report :
  scan_buttons levels ≠ last_state fr ->
  ticks_diff now (last_change fr) > DEBOUNCE_MS ->
  cfg !! scan_buttons levels = Some (modifier, keycodes) ->
  BLEKeyboard.key_press_report chk modifier keycodes = Some report ->
  loop_body chk cfg levels now fr
  = (accepted (scan_buttons levels) now
       (notifications (keyboard fr) RELEASE_ALL
        ++ notifications (keyboard fr) report) fr, Some tt).
Proof.
  intros Hne Hlate Hcfg Hr. rewrite loop_body_accepted by done.
  rewrite Hcfg. cbn zeta. apply on_keyboard_accepted.
  by rewrite (key_press_sends _ _ _ _ _ Hr).
Qed.

Lemma loop_body_unmapped levels now fr :
  scan_buttons levels ≠ last_state fr ->
  ticks_diff now (last_change fr) > DEBOUNCE_MS ->
  cfg !! scan_buttons levels = None ->
  loop_body chk cfg levels now fr
  = (accepted (scan_buttons levels) now
       (notifications (keyboard fr) RELEASE_ALL) fr, Some tt).
Proof.
  intros Hne Hlate Hcfg. rewrite loop_body_accepted by done.
  by rewrite Hcfg.
Qed.

Lemma loop_body_raises levels now fr modifier keycodes :
  scan_buttons levels ≠ last_state fr ->
  ticks_diff now (last_change fr) > DEBOUNCE_MS ->
  cfg !! scan_buttons levels = Some (modifier, keycodes) ->
  BLEKeyboard.key_press_report chk modifier keycodes = None ->
  loop_body chk cfg levels now fr
  = (accepted (scan_buttons levels) now
       (notifications (keyboard fr) RELEASE_ALL) fr, None).
Proof.
  intros Hne Hlate Hcfg Hr. rewrite loop_body_accepted by done.
  rewrite Hcfg. cbn zeta.
  rewrite <- (app_nil_r (notifications _ _)) at 2.
  apply on_keyboard_accepted.
  by rewrite logged_nil, (key_press_raises _ _ _ _ Hr).
Qed.

Lemma run_cons o os fr :
  run chk cfg (o :: os) fr
  = match step chk cfg o fr with
    | (fr', Some _) => run chk cfg os fr'
    | (fr', None) => (fr', None)
    end.
Proof.
  cbn [run]. unfold mbind, M_bind.
  by destruct (step chk cfg o fr) as [fr' [[]|]].
Qed.

End Loop.

(** ** What the BLE object has seen only grows *)

Section History.

Context (chk : struct_checks) (cfg : combo_map).

Lemma history_accepted state now cs fr :
  history (accepted state now cs fr) = history fr ++ cs.
Proof. done. Qed.

Lemma step_history o fr :
  ∃ cs, history (step chk cfg o fr).1 = history fr ++ cs.
Proof.
  destruct o as [levels now | event [[conn_handle addr_type] addr]].
  - cbn [step].
    destruct (decide (scan_buttons levels = last_state fr)) as [Heq|Hne];
      [exists []; rewrite loop_body_rejected by auto;
       by rewrite app_nil_r|].
    destruct (decide (ticks_diff now (last_change fr) <= DEBOUNCE_MS))
      as [Hsoon|Hlate];
      [exists []; rewrite loop_body_rejected by auto;
       by rewrite app_nil_r|].
    destruct (cfg !! scan_buttons levels) as [[modifier keycodes]|] eqn:Hc.
    + destruct (BLEKeyboard.key_press_report chk modifier keycodes)
        as [report|] eqn:Hr.
      * erewrite loop_body_mapped by (done || lia). by eexists.
      * erewrite loop_body_raises by (done || lia). by eexists.
    + rewrite loop_body_unmapped by (done || lia). by eexists.
  - cbn [step]. unfold on_keyboard, BLEKeyboard._irq.
    repeat case_bool_decide; cbn.
    + exists []. by rewrite app_nil_r.
    + by eexists.
    + exists []. by rewrite app_nil_r.
Qed.

Lemma run_history os fr :
  ∃ cs, history (run chk cfg os fr).1 = history fr ++ cs.
Proof.
  revert fr. induction os as [|o os IH]; intros fr.
  - exists []. cbn. by rewrite app_nil_r.
  - rewrite run_cons. destruct (step_history o fr) as [cs1 H1].
    destruct (step chk cfg o fr) as [fr' [[]|]]; cbn [fst] in *.
    + destruct (IH fr') as [cs2 H2]. exists (cs1 ++ cs2).
      by rewrite H2, H1, app_assoc.
    + by exists cs1.
Qed.

End History.

(** ** The report of [key_press] *)

(** C1 (evaluation of the code at the chord (0,2)).  The entry of (0,2)
    is modifier 0x02 with the keycode 0x04 of "A".  On either runtime
    [key_press] builds the eight bytes 01 02 04 00 00 00 00 00: the
    keycode sits in the third byte, directly after the modifier, and no
    reserved zero byte separates them, so the report is not
    01 02 00 04 00 00 00 00.  The same bytes reach a connected peer when
    the poll loop accepts the chord. *)
Theorem key_press_report_has_no_reserved_byte :
  COMBO_MAP !! [0%nat; 2%nat] = Some (0x02, [0x04])
  ∧ (∀ chk,
       BLEKeyboard.key_press_report chk 0x02 [0x04]
       = Some [1; 0x02; 0x04; 0; 0; 0; 0; 0])
  ∧ (∀ chk,
       BLEKeyboard.key_press_report chk 0x02 [0x04]
       ≠ Some [1; 0x02; 0; 0x04; 0; 0; 0; 0])
  ∧ (∀ chk,
       history (main chk (10, 11, 12, 13) 0
                  [Interrupt 1 (7, 0, []); Tick [0; 1; 0; 1; 1; 1] 26]).1
       = history (main_start (10, 11, 12, 13) 0)
         ++ [GattsNotify 7 10 [1; 0; 0; 0; 0; 0; 0; 0];
             GattsNotify 7 10 [1; 0x02; 0x04; 0; 0; 0; 0; 0]]).
Proof.
  split; [by vm_compute|].
  split; [by intros []; vm_compute|].
  split; [by intros []; vm_compute|].
  by intros []; vm_compute.
Qed.

(** C5.  Round trip: for a modifier byte and at most six keycode bytes,
    [key_press] packs a report of exactly eight bytes, and unpacking those
    bytes with the same format gives back the report id 1, the modifier
    and the keycodes padded to six with zeros. *)
Theorem key_press_report_round_trip chk modifier keycodes :
  is_byte modifier -> Forall is_byte keycodes ->
  (length keycodes <= 6)%nat ->
  ∃ report,
    BLEKeyboard.key_press_report chk modifier keycodes = Some report
    ∧ length report = 8%nat
    ∧ struct_unpack fmt_BB6B report
      = Some (1 :: modifier
                :: keycodes ++ replicate (6 - length keycodes)%nat 0).
Proof.
  intros Hm Hk Hlen. unfold BLEKeyboard.key_press_report.
  replace (Z.to_nat (6 - Z.of_nat (length keycodes)))
    with (6 - length keycodes)%nat by lia.
  apply (struct_unpack_pack chk fmt_BB6B).
  assert (Hpad : ∀ n, Forall2 (fun c v => 0 <= v < fmt_bound c)
                        (replicate n fmt_B) (replicate n 0)).
  { induction n; constructor; [by vm_compute|done]. }
  apply Forall2_cons; split; [by vm_compute|].
  apply Forall2_cons; split; [exact Hm|].
  replace (replicate 6 fmt_B)
    with (replicate (length keycodes) fmt_B
          ++ replicate (6 - length keycodes) fmt_B)
    by (rewrite <- replicate_add; f_equal; lia).
  apply Forall2_app; [|apply Hpad].
  clear Hlen. induction Hk; constructor; done.
Qed.

Lemma key_press_report_round_trip_witness :
  ∃ report,
    BLEKeyboard.key_press_report Checked 0x02 [0x04; 0x2C] = Some report
    ∧ length report = 8%nat
    ∧ struct_unpack fmt_BB6B report = Some [1; 0x02; 0x04; 0x2C; 0; 0; 0; 0].
Proof.
  apply (key_press_report_round_trip Checked 0x02 [0x04; 0x2C]).
  - unfold is_byte; lia.
  - repeat constructor; unfold is_byte; lia.
  - cbn; lia.
Defined.

(** ** The debouncer *)

(** C2.  A sample that differs from the stable chord but comes when
    [ticks_diff now last_change] is at most [DEBOUNCE_MS] (25 ms) changes
    nothing: no report goes out and [last_state] and [last_change] stay
    as they are, also over any number of such ticks in a row.  Only a tick
    with a differing sample and a difference above [DEBOUNCE_MS] changes
    the frame, and it sets [last_state] to the sample and [last_change] to
    [now]. *)
Theorem rejected_samples_change_nothing chk cfg fr
    (samples : list (list Z * Z)) :
  Forall (fun s => scan_buttons s.1 ≠ last_state fr
                   ∧ ticks_diff s.2 (last_change fr) <= DEBOUNCE_MS)
         samples ->
  DEBOUNCE_MS = 25
  ∧ Forall (fun s => loop_body chk cfg s.1 s.2 fr = (fr, Some tt)) samples
  ∧ run chk cfg ((fun s => Tick s.1 s.2) <$> samples) fr = (fr, Some tt)
  ∧ ∀ levels now,
      let fr' := (loop_body chk cfg levels now fr).1 in
      (fr' ≠ fr
       ↔ scan_buttons levels ≠ last_state fr
         ∧ ticks_diff now (last_change fr) > DEBOUNCE_MS)
      ∧ (fr' ≠ fr ->
         last_state fr' = scan_buttons levels ∧ last_change fr' = now).
Proof.
  intros Hrej. split; [done|]. split; [|split].
  - eapply Forall_impl; [exact Hrej|]. intros [levels now] [_ Hsoon].
    apply loop_body_rejected. by right.
  - induction Hrej as [|[levels now] samples [_ Hsoon] _ IH]; [done|].
    rewrite fmap_cons, run_cons. cbn [step fst snd].
    rewrite loop_body_rejected by (by right). exact IH.
  - intros levels now.
    destruct (decide (scan_buttons levels = last_state fr)) as [Heq|Hne].
    { cbn zeta. rewrite loop_body_rejected by (by left). cbn [fst].
      split; [split; [done|tauto]|done]. }
    destruct (decide (ticks_diff now (last_change fr) <= DEBOUNCE_MS))
      as [Hsoon|Hlate].
    { cbn zeta. rewrite loop_body_rejected by (by right). cbn [fst].
      split; [split; [done|intros []; lia]|done]. }
    assert (Hfr : last_state (loop_body chk cfg levels now fr).1
                  = scan_buttons levels
                  ∧ last_change (loop_body chk cfg levels now fr).1 = now).
    { rewrite loop_body_accepted by (done || lia). cbn zeta.
      destruct (cfg !! scan_buttons levels) as [[modifier keycodes]|];
        [|done].
      unfold on_keyboard. by destruct (BLEKeyboard.key_press _ _ _ _). }
    cbn zeta. destruct Hfr as [Hs Hc]. split; [|done].
    split; [intros _; split; [done|lia]|].
    intros _ Hsame. rewrite Hsame in Hs. congruence.
Qed.

Lemma rejected_samples_change_nothing_witness :
  run Checked COMBO_MAP
    [ Tick [0; 1; 1; 1; 1; 1] 1010; Tick [0; 1; 1; 1; 1; 1] 1020;
      Tick [1; 0; 1; 1; 1; 1] 1025 ]
    (main_start (10, 11, 12, 13) 1000)
  = (main_start (10, 11, 12, 13) 1000, Some tt).
Proof.
  apply (rejected_samples_change_nothing Checked COMBO_MAP
           (main_start (10, 11, 12, 13) 1000)
           [ ([0; 1; 1; 1; 1; 1], 1010); ([0; 1; 1; 1; 1; 1], 1020);
             ([1; 0; 1; 1; 1; 1], 1025) ]).
  repeat (apply Forall_cons; split; [by_evaluation|]). by apply Forall_nil.
Defined.

(** Samples () (0,) (0,) (0,) taken 10 ms apart from the start: the first
    (0,) comes too soon, the second is accepted, the third changes
    nothing.  One release-all and one report for "F" go out. *)
Example samples_ten_ms_apart :
  let '(fr, r) :=
    main Checked (10, 11, 12, 13) 0
      [ Interrupt 1 (7, 0, []);
        Tick [1; 1; 1; 1; 1; 1] 10; Tick [0; 1; 1; 1; 1; 1] 20;
        Tick [0; 1; 1; 1; 1; 1] 30; Tick [0; 1; 1; 1; 1; 1] 40 ] in
  r = Some tt ∧ last_state fr = [0%nat] ∧ last_change fr = 30
  ∧ history fr = history (main_start (10, 11, 12, 13) 0)
                 ++ [ GattsNotify 7 10 [1; 0; 0; 0; 0; 0; 0; 0];
                      GattsNotify 7 10 [1; 0; 0x09; 0; 0; 0; 0; 0] ].
Proof. by_evaluation. Qed.

(** From (0,) accepted at 30: (0,1) at 40 comes too soon, the bounce back
    to (0,) at 50 equals the stable chord, and (0,1) at 60 is accepted
    because the window still counts from 30.  The report for SPACE goes
    out after a release-all. *)
Example bounce_does_not_restart_the_window :
  let '(fr, r) :=
    main Checked (10, 11, 12, 13) 0
      [ Interrupt 1 (7, 0, []); Tick [0; 1; 1; 1; 1; 1] 30;
        Tick [0; 0; 1; 1; 1; 1] 40; Tick [0; 1; 1; 1; 1; 1] 50;
        Tick [0; 0; 1; 1; 1; 1] 60 ] in
  r = Some tt ∧ last_state fr = [0%nat; 1%nat] ∧ last_change fr = 60
  ∧ history fr = history (main_start (10, 11, 12, 13) 0)
                 ++ [ GattsNotify 7 10 [1; 0; 0; 0; 0; 0; 0; 0];
                      GattsNotify 7 10 [1; 0; 0x09; 0; 0; 0; 0; 0];
                      GattsNotify 7 10 [1; 0; 0; 0; 0; 0; 0; 0];
                      GattsNotify 7 10 [1; 0; 0x2C; 0; 0; 0; 0; 0] ].
Proof. by_evaluation. Qed.

(** ** Connections and notifications *)

Section Connections.

Implicit Types (self : BLEKeyboard) (report : list Z).

Lemma length_notifications self report :
  length (notifications self report) = size (_connections self).
Proof. unfold notifications. by rewrite length_fmap. Qed.

Lemma notified_fmap (conns : list Z) conn_handle value_handle report :
  NoDup conns ->
  notified conn_handle
    ((fun c => GattsNotify c value_handle report) <$> conns)
  = if bool_decide (conn_handle ∈ conns) then 1%nat else 0%nat.
Proof.
  unfold notified. induction 1 as [|c conns Hc _ IH].
  - by rewrite bool_decide_eq_false_2 by apply not_elem_of_nil.
  - rewrite fmap_cons.
    destruct (decide (c = conn_handle)) as [->|Hne].
    + rewrite filter_cons_True by (cbn; by rewrite bool_decide_eq_true_2).
      cbn [length]. rewrite IH, (bool_decide_eq_false_2 _ Hc).
      by rewrite bool_decide_eq_true_2 by (apply elem_of_cons; by left).
    + rewrite filter_cons_False
        by (cbn; rewrite bool_decide_eq_false_2 by done; tauto).
      assert (Hiff : conn_handle ∈ c :: conns ↔ conn_handle ∈ conns)
        by (rewrite elem_of_cons; split; [by intros [->|]|by right]).
      by rewrite IH, (bool_decide_ext _ _ Hiff).
Qed.

(** A report is notified exactly once to each connected peer and to
    nobody else. *)
Lemma notified_notifications self report conn_handle :
  notified conn_handle (notifications self report)
  = if bool_decide (conn_handle ∈ _connections self) then 1%nat else 0%nat.
Proof.
  unfold notifications. rewrite notified_fmap by apply NoDup_elements.
  by rewrite (bool_decide_ext _ _ (elem_of_elements _ conn_handle)).
Qed.

Lemma with_connections_same f self :
  f (_connections self) = _connections self ->
  with_connections f self = self.
Proof. intros Hf. destruct self. unfold with_connections. cbn in *. by rewrite Hf. Qed.

End Connections.

(** C8.  With no connection, [send_report] returns without raising and
    leaves the keyboard object, the history of its BLE object included,
    exactly as it was: nothing is notified and nothing is kept for
    later. *)
Theorem send_report_without_connections report self :
  _connections self = ∅ ->
  BLEKeyboard.send_report report self = (self, Some tt)
  ∧ notifications self report = [].
Proof.
  intros Hnone. rewrite send_report_spec.
  assert (Hn : notifications self report = []).
  { unfold notifications. by rewrite Hnone, elements_empty. }
  by rewrite Hn, logged_nil.
Qed.

Lemma send_report_without_connections_witness :
  BLEKeyboard.send_report RELEASE_ALL
    (BLEKeyboard.__init__ (10, 11, 12, 13) "ChordyPad")
  = (BLEKeyboard.__init__ (10, 11, 12, 13) "ChordyPad", Some tt)
  ∧ notifications (BLEKeyboard.__init__ (10, 11, 12, 13) "ChordyPad")
      RELEASE_ALL = [].
Proof.
  apply (send_report_without_connections RELEASE_ALL
           (BLEKeyboard.__init__ (10, 11, 12, 13) "ChordyPad")).
  reflexivity.
Defined.

(** C9.  The connection set behaves as a set.  A connect event for a peer
    already in the set leaves the keyboard unchanged; a disconnect event
    for a peer not in the set leaves the set unchanged, raises nothing and
    still advertises again; and [send_report] notifies each peer of the
    set exactly once and no other peer, so the number of notifications is
    the size of the set. *)
Theorem connection_set_semantics self conn_handle addr_type addr report :
  (conn_handle ∈ _connections self ->
   BLEKeyboard._irq _IRQ_CENTRAL_CONNECT (conn_handle, addr_type, addr) self
   = (self, Some tt))
  ∧ (conn_handle ∉ _connections self ->
     BLEKeyboard._irq _IRQ_CENTRAL_DISCONNECT
       (conn_handle, addr_type, addr) self
     = (logged [GapAdvertise 100000 (_payload self)] self, Some tt))
  ∧ BLEKeyboard.send_report report self
    = (logged (notifications self report) self, Some tt)
  ∧ notified conn_handle (notifications self report)
    = (if bool_decide (conn_handle ∈ _connections self) then 1 else 0)%nat
  ∧ length (notifications self report) = size (_connections self).
Proof.
  split; [|split; [|split; [|split]]].
  - intros Hin. unfold BLEKeyboard._irq. cbn [bool_decide]. 
    rewrite bool_decide_eq_true_2 by done. unfold modify.
    rewrite with_connections_same; [done|].
    by apply subseteq_union_1_L, singleton_subseteq_l.
  - intros Hout. unfold BLEKeyboard._irq.
    rewrite bool_decide_eq_false_2 by done.
    rewrite bool_decide_eq_true_2 by done.
    unfold mbind, M_bind, modify at 1.
    rewrite with_connections_same; [done|].
    by apply difference_disjoint_L, disjoint_singleton_r.
  - apply send_report_spec.
  - apply notified_notifications.
  - apply length_notifications.
Qed.

Lemma connection_set_semantics_witness :
  let self :=
    with_connections (fun _ => {[7]})
      (BLEKeyboard.__init__ (10, 11, 12, 13) "ChordyPad") in
  BLEKeyboard._irq _IRQ_CENTRAL_CONNECT (7, 0, []) self = (self, Some tt)
  ∧ BLEKeyboard._irq _IRQ_CENTRAL_DISCONNECT (3, 0, []) self
    = (logged [GapAdvertise 100000 (_payload self)] self, Some tt)
  ∧ notified 7 (notifications self RELEASE_ALL) = 1%nat.
Proof.
  intros self.
  destruct (connection_set_semantics self 7 0 [] RELEASE_ALL)
    as (Hdup & _ & _ & Hcount & _).
  destruct (connection_set_semantics self 3 0 [] RELEASE_ALL)
    as (_ & Hgone & _).
  split; [apply Hdup; by_evaluation|].
  split; [apply Hgone; by_evaluation|].
  rewrite Hcount. reflexivity.
Defined.

(** ** Accepted chords *)

(** C3.  When a tick accepts a chord that has an entry (a modifier byte
    and at most six keycode bytes), the BLE object sees the release-all
    report, which is the report of modifier 0 and no keys, notified to
    every connection first, then the report of the chord notified to every
    connection, and only after both whatever the rest of the run sends:
    the tick is finished before the next one starts. *)
Theorem release_all_precedes_key_report chk cfg levels now os fr
    modifier keycodes :
  scan_buttons levels ≠ last_state fr ->
  ticks_diff now (last_change fr) > DEBOUNCE_MS ->
  cfg !! scan_buttons levels = Some (modifier, keycodes) ->
  is_byte modifier -> Forall is_byte keycodes ->
  (length keycodes <= 6)%nat ->
  let report :=
    1 :: modifier :: keycodes ++ replicate (6 - length keycodes)%nat 0 in
  let sent :=
    notifications (keyboard fr) [1; 0; 0; 0; 0; 0; 0; 0]
    ++ notifications (keyboard fr) report in
  BLEKeyboard.release_all_report chk = Some [1; 0; 0; 0; 0; 0; 0; 0]
  ∧ BLEKeyboard.release_all_report chk
    = BLEKeyboard.key_press_report chk 0 []
  ∧ BLEKeyboard.key_press_report chk modifier keycodes = Some report
  ∧ loop_body chk cfg levels now fr
    = (accepted (scan_buttons levels) now sent fr, Some tt)
  ∧ run chk cfg (Tick levels now :: os) fr
    = run chk cfg os (accepted (scan_buttons levels) now sent fr)
  ∧ ∃ later,
      history (run chk cfg (Tick levels now :: os) fr).1
      = history fr ++ sent ++ later.
Proof.
  intros Hne Hlate Hcfg Hm Hk Hlen report sent.
  pose proof (key_press_report_bytes chk _ _ Hm Hk Hlen) as Hr.
  pose proof (loop_body_mapped chk cfg _ _ _ _ _ _ Hne Hlate Hcfg Hr) as Hb.
  assert (Hrun : run chk cfg (Tick levels now :: os) fr
                 = run chk cfg os (accepted (scan_buttons levels) now sent fr)).
  { rewrite run_cons. cbn [step]. by rewrite Hb. }
  split; [apply release_all_report_bytes|]. split; [done|].
  split; [exact Hr|]. split; [exact Hb|]. split; [exact Hrun|].
  destruct (run_history chk cfg os
              (accepted (scan_buttons levels) now sent fr)) as [later Hl].
  exists later. rewrite Hrun, Hl, history_accepted. by rewrite app_assoc.
Qed.

Lemma release_all_precedes_key_report_witness :
  let fr := (run Checked COMBO_MAP [Interrupt 1 (7, 0, [])]
               (main_start (10, 11, 12, 13) 0)).1 in
  loop_body Checked COMBO_MAP [0; 1; 0; 1; 1; 1] 26 fr
  = (accepted [0%nat; 2%nat] 26
       [ GattsNotify 7 10 [1; 0; 0; 0; 0; 0; 0; 0];
         GattsNotify 7 10 [1; 2; 4; 0; 0; 0; 0; 0] ] fr, Some tt).
Proof.
  intros fr.
  apply (release_all_precedes_key_report Checked COMBO_MAP
           [0; 1; 0; 1; 1; 1] 26 [] fr 2 [4]).
  - by_evaluation.
  - by_evaluation.
  - by_evaluation.
  - by_evaluation.
  - repeat constructor; by_evaluation.
  - cbn; lia.
Defined.

(** C4.  When a tick accepts a chord that has no entry, nothing is
    raised, and all the BLE object sees is the release-all report, once
    for each connection; the tick is over after it. *)
Theorem unmapped_chord_sends_release_all_only chk cfg levels now fr :
  scan_buttons levels ≠ last_state fr ->
  ticks_diff now (last_change fr) > DEBOUNCE_MS ->
  cfg !! scan_buttons levels = None ->
  loop_body chk cfg levels now fr
  = (accepted (scan_buttons levels) now
       (notifications (keyboard fr) [1; 0; 0; 0; 0; 0; 0; 0]) fr, Some tt)
  ∧ BLEKeyboard.release_all_report chk = Some [1; 0; 0; 0; 0; 0; 0; 0]
  ∧ length (notifications (keyboard fr) [1; 0; 0; 0; 0; 0; 0; 0])
    = size (_connections (keyboard fr))
  ∧ ∀ conn_handle,
      notified conn_handle
        (notifications (keyboard fr) [1; 0; 0; 0; 0; 0; 0; 0])
      = (if bool_decide (conn_handle ∈ _connections (keyboard fr))
         then 1 else 0)%nat.
Proof.
  intros Hne Hlate Hcfg.
  split; [by apply loop_body_unmapped|].
  split; [apply release_all_report_bytes|].
  split; [apply length_notifications|].
  intros conn_handle. apply notified_notifications.
Qed.

Lemma unmapped_chord_sends_release_all_only_witness :
  let fr := (run Checked COMBO_MAP [Interrupt 1 (7, 0, [])]
               (main_start (10, 11, 12, 13) 0)).1 in
  loop_body Checked COMBO_MAP [1; 1; 1; 0; 0; 1] 26 fr
  = (accepted [3%nat; 4%nat] 26
       [GattsNotify 7 10 [1; 0; 0; 0; 0; 0; 0; 0]] fr, Some tt).
Proof.
  intros fr.
  apply (unmapped_chord_sends_release_all_only Checked COMBO_MAP
           [1; 1; 1; 0; 0; 1] 26 fr); by_evaluation.
Defined.

(** ** The configured map *)

Lemma COMBO_MAP_entries :
  map_Forall (fun _ e => is_byte e.1 ∧ Forall is_byte e.2
                         ∧ length e.2 = 1%nat) COMBO_MAP.
Proof.
  unfold COMBO_MAP.
  repeat (apply map_Forall_insert_2;
          [cbn; unfold is_byte;
           split; [lia|split; [repeat constructor; lia|done]]|]).
  apply map_Forall_empty.
Qed.

Lemma COMBO_MAP_within_contract : within_contract COMBO_MAP.
Proof.
  eapply map_Forall_impl; [apply COMBO_MAP_entries|].
  intros chord e (Hm & Hk & Hlen). cbn. rewrite Hlen. auto with lia.
Qed.

Section Contract.

Context (chk : struct_checks) (cfg : combo_map).
Hypothesis Hcfg : within_contract cfg.

Lemma step_within_contract o fr : (step chk cfg o fr).2 = Some tt.
Proof.
  destruct o as [levels now | event [[conn_handle addr_type] addr]].
  - cbn [step].
    destruct (decide (scan_buttons levels = last_state fr)) as [Heq|Hne];
      [by rewrite loop_body_rejected by auto|].
    destruct (decide (ticks_diff now (last_change fr) <= DEBOUNCE_MS))
      as [Hsoon|Hlate]; [by rewrite loop_body_rejected by auto|].
    destruct (cfg !! scan_buttons levels) as [[modifier keycodes]|] eqn:Hc.
    + destruct (Hcfg _ _ Hc) as (Hm & Hk & Hlen).
      erewrite loop_body_mapped;
        [done|done|lia|done|by apply key_press_report_bytes].
    + by rewrite loop_body_unmapped by (done || lia).
  - cbn [step]. unfold on_keyboard, BLEKeyboard._irq.
    by repeat case_bool_decide.
Qed.

Lemma run_within_contract os fr : (run chk cfg os fr).2 = Some tt.
Proof.
  revert fr. induction os as [|o os IH]; intros fr; [done|].
  rewrite run_cons. pose proof (step_within_contract o fr) as Hs.
  destruct (step chk cfg o fr) as [fr' [[]|]]; [apply IH|done].
Qed.

End Contract.

(** C10.  Every entry of [COMBO_MAP] has exactly one keycode.  So for any
    chord with an entry the pad count [6 - len(keycodes)] of [key_press]
    is not negative, [struct.pack] gets its eight values and the report is
    built on either runtime; and no run of the poll loop over [COMBO_MAP],
    whatever the samples, times and connection events, raises. *)
Theorem combo_map_entries_fit_key_press (state : chord) modifier keycodes :
  COMBO_MAP !! state = Some (modifier, keycodes) ->
  length keycodes = 1%nat
  ∧ 0 <= 6 - Z.of_nat (length keycodes)
  ∧ (∀ chk,
       BLEKeyboard.key_press_report chk modifier keycodes
       = Some (1 :: modifier :: keycodes ++ [0; 0; 0; 0; 0]))
  ∧ (∀ chk os fr, (run chk COMBO_MAP os fr).2 = Some tt).
Proof.
  intros Hentry.
  destruct (COMBO_MAP_entries _ _ Hentry) as (Hm & Hk & Hlen).
  cbn in Hm, Hk, Hlen.
  split; [done|]. split; [lia|]. split.
  - intros chk. rewrite key_press_report_bytes by (done || lia).
    by rewrite Hlen.
  - intros chk os fr. apply run_within_contract, COMBO_MAP_within_contract.
Qed.

Lemma combo_map_entries_fit_key_press_witness :
  length [0x04] = 1%nat
  ∧ 0 <= 6 - Z.of_nat (length [0x04])
  ∧ (∀ chk,
       BLEKeyboard.key_press_report chk 0x02 [0x04]
       = Some (1 :: 0x02 :: [0x04] ++ [0; 0; 0; 0; 0]))
  ∧ (∀ chk os fr, (run chk COMBO_MAP os fr).2 = Some tt).
Proof.
  apply (combo_map_entries_fit_key_press [0%nat; 2%nat] 0x02 [0x04]).
  by_evaluation.
Defined.

(** ** More than six keycodes *)

(** C7, as stated, fails.  Nothing looks at the combination map before
    the loop runs: with a map whose entry for chord (0,) has seven
    keycodes the keyboard is set up and the loop starts.  When the chord
    is accepted, the release-all goes out and [key_press] is reached with
    the seven keycodes: a checking [struct.pack] raises there, inside the
    tick, and the loop ends; an unchecking one does not fail at all and
    packs the first six keycodes. *)
Lemma surplus_keycodes_reach_key_press :
  surplus_map !! [0%nat] = Some (0, [4; 5; 6; 7; 8; 9; 10])
  ∧ (let '(fr, r) :=
       run Checked surplus_map
         [Interrupt 1 (7, 0, []); Tick [0; 1; 1; 1; 1; 1] 26]
         (main_start (10, 11, 12, 13) 0) in
     r = None
     ∧ last_state fr = [0%nat]
     ∧ history fr = history (main_start (10, 11, 12, 13) 0)
                    ++ [GattsNotify 7 10 [1; 0; 0; 0; 0; 0; 0; 0]])
  ∧ BLEKeyboard.key_press_report Unchecked 0 [4; 5; 6; 7; 8; 9; 10]
    = Some [1; 0; 4; 5; 6; 7; 8; 9]
  ∧ ¬ (∀ cfg os fr, (run Checked cfg os fr).2 = Some tt).
Proof.
  split; [by_evaluation|]. split; [by_evaluation|]. split; [by_evaluation|].
  intros Hnever.
  specialize (Hnever surplus_map [Tick [0; 1; 1; 1; 1; 1] 26]
                (main_start (10, 11, 12, 13) 0)).
  vm_compute in Hnever. discriminate Hnever.
Qed.

(** C7, amended.  With more than six keycodes [key_press] pads nothing and
    hands [struct.pack] more values than the format has slots.  The map is
    not checked when it is loaded; the failure comes at run time, in the
    tick that accepts a chord with such an entry: the frame is updated and
    the release-all is sent, then a checking [struct.pack] raises and the
    loop ends there.  A [struct.pack] that does not check the count does
    not fail: the report carries the first six keycodes. *)
Theorem surplus_keycodes_fail_in_the_accepting_tick cfg levels now os fr
    modifier keycodes :
  scan_buttons levels ≠ last_state fr ->
  ticks_diff now (last_change fr) > DEBOUNCE_MS ->
  cfg !! scan_buttons levels = Some (modifier, keycodes) ->
  (6 < length keycodes)%nat ->
  let fr1 := accepted (scan_buttons levels) now
               (notifications (keyboard fr) [1; 0; 0; 0; 0; 0; 0; 0]) fr in
  BLEKeyboard.key_press_report Checked modifier keycodes = None
  ∧ loop_body Checked cfg levels now fr = (fr1, None)
  ∧ run Checked cfg (Tick levels now :: os) fr = (fr1, None)
  ∧ (is_byte modifier -> Forall is_byte keycodes ->
     loop_body Unchecked cfg levels now fr
     = (accepted (scan_buttons levels) now
          (notifications (keyboard fr) [1; 0; 0; 0; 0; 0; 0; 0]
           ++ notifications (keyboard fr)
                (1 :: modifier :: take 6 keycodes)) fr, Some tt)).
Proof.
  intros Hne Hlate Hentry Hlen fr1.
  pose proof (key_press_report_surplus_checked modifier keycodes Hlen) as Hr.
  pose proof (loop_body_raises Checked cfg _ _ _ _ _ Hne Hlate Hentry Hr)
    as Hb.
  split; [exact Hr|]. split; [exact Hb|]. split.
  - rewrite run_cons. cbn [step]. by rewrite Hb.
  - intros Hm Hk.
    apply (loop_body_mapped Unchecked cfg _ _ _ _ _ _ Hne Hlate Hentry).
    by apply key_press_report_surplus_unchecked.
Qed.

Lemma surplus_keycodes_fail_in_the_accepting_tick_witness :
  let fr := (run Checked surplus_map [Interrupt 1 (7, 0, [])]
               (main_start (10, 11, 12, 13) 0)).1 in
  loop_body Checked surplus_map [0; 1; 1; 1; 1; 1] 26 fr
  = (accepted [0%nat] 26 [GattsNotify 7 10 [1; 0; 0; 0; 0; 0; 0; 0]] fr,
     None).
Proof.
  intros fr.
  apply (surplus_keycodes_fail_in_the_accepting_tick surplus_map
           [0; 1; 1; 1; 1; 1] 26 [] fr 0 [4; 5; 6; 7; 8; 9; 10]).
  - by_evaluation.
  - by_evaluation.
  - by_evaluation.
  - cbn; lia.
Defined.

(** ** The HID information record *)

(** C6 (evaluation of the code).  [_HID_INFO] is packed with format
    [<HHBB] from the values 0x0111, 0x0000, 0x01, 0x01 and is six bytes,
    11 01 00 00 01 01, on either runtime: not the four bytes of bcdHID,
    country code and flags.  [__init__] writes these six bytes to the
    handle of the HID Information characteristic.  Read as that
    characteristic's four bytes, they give bcdHID 0x0111, country code 0
    and flags 0: the flags 0x01 that the code packs lie beyond the fourth
    byte. *)
Theorem hid_info_is_six_bytes :
  (∀ chk, _HID_INFO_packed chk = Some _HID_INFO)
  ∧ _HID_INFO = [0x11; 0x01; 0x00; 0x00; 0x01; 0x01]
  ∧ _HID_INFO = le_bytes 2 0x0111 ++ le_bytes 2 0x0000 ++ [0x01] ++ [0x01]
  ∧ length _HID_INFO = 6%nat
  ∧ length _HID_INFO ≠ calcsize fmt_HBB
  ∧ struct_unpack fmt_HHBB _HID_INFO = Some [0x0111; 0x0000; 0x01; 0x01]
  ∧ struct_unpack fmt_HBB _HID_INFO = None
  ∧ struct_unpack fmt_HBB (take 4 _HID_INFO) = Some [0x0111; 0x00; 0x00]
  ∧ (∀ chk, struct_pack chk fmt_HBB [0x0111; 0x00; 0x01]
            = Some [0x11; 0x01; 0x00; 0x01])
  ∧ ∀ report_handle report_map_handle info_handle control_handle name,
      GattsWrite info_handle _HID_INFO
      ∈ _ble (BLEKeyboard.__init__
                (report_handle, report_map_handle, info_handle,
                 control_handle) name).
Proof.
  split; [by intros []; vm_compute|].
  do 3 (split; [by vm_compute|]).
  split; [by_evaluation|].
  do 3 (split; [by vm_compute|]).
  split; [by intros []; vm_compute|].
  intros. cbn [BLEKeyboard.__init__ _ble]. rewrite !elem_of_cons. tauto.
Qed.

(** * Further properties of the code *)

(** ** [scan_buttons] *)

Lemma elem_of_scan_from k levels i :
  i ∈ scan_from k levels
  ↔ ∃ j, i = (k + j)%nat ∧ levels !! j = Some 0.
Proof.
  revert k. induction levels as [|v rest IH]; intros k; cbn [scan_from].
  - rewrite elem_of_nil. split; [done|]. by intros (j & _ & ?).
  - assert (Hrest : i ∈ scan_from (S k) rest
                    ↔ ∃ j, i = (k + S j)%nat ∧ rest !! j = Some 0).
    { rewrite IH. split; intros (j & -> & Hj); exists j; split; (lia || done). }
    case_bool_decide as Hv.
    + rewrite elem_of_cons, Hrest. split.
      * intros [->|(j & -> & Hj)]; [exists 0%nat|exists (S j)];
          (split; [lia|by subst]).
      * intros ([|j] & -> & Hj); [left; lia|right; by exists j].
    + rewrite Hrest. split.
      * intros (j & -> & Hj). by exists (S j).
      * intros ([|j] & -> & Hj); [cbn in Hj; congruence|by exists j].
Qed.

Lemma scan_from_sorted k levels : StronglySorted lt (scan_from k levels).
Proof.
  revert k. induction levels as [|v rest IH]; intros k; cbn [scan_from].
  - constructor.
  - case_bool_decide; [|apply IH]. constructor; [apply IH|].
    apply Forall_forall. intros i (j & -> & _)%elem_of_scan_from. lia.
Qed.

Lemma length_scan_from k levels :
  (length (scan_from k levels) <= length levels)%nat.
Proof.
  revert k. induction levels as [|v rest IH]; intros k; cbn [scan_from];
    [done|].
  specialize (IH (S k)). case_bool_decide; cbn; lia.
Qed.

Lemma strictly_sorted_NoDup (c : chord) : StronglySorted lt c -> NoDup c.
Proof.
  induction 1 as [|i c _ IH Hi]; constructor; [|done].
  intros Hin. rewrite Forall_forall in Hi. specialize (Hi _ Hin). lia.
Qed.

Lemma strictly_sorted_ext (c1 c2 : chord) :
  StronglySorted lt c1 -> StronglySorted lt c2 ->
  (∀ i, i ∈ c1 ↔ i ∈ c2) -> c1 = c2.
Proof.
  intros H1 H2 Hmem.
  apply (StronglySorted_unique_strong lt); [intros; lia|done|done|].
  apply NoDup_Permutation; auto using strictly_sorted_NoDup.
Qed.

Lemma elem_of_scan_buttons levels i :
  i ∈ scan_buttons levels ↔ levels !! i = Some 0.
Proof.
  unfold scan_buttons. rewrite elem_of_scan_from. split.
  - by intros (j & -> & Hj).
  - intros Hi. by exists i.
Qed.

(** X1.  The chord that [scan_buttons] returns lists exactly the
    positions whose pin reads 0, each once, in ascending order; so it has
    no index at or beyond the number of buttons and no more indices than
    there are buttons. *)
Theorem scan_buttons_pressed_positions levels :
  (∀ i, i ∈ scan_buttons levels ↔ levels !! i = Some 0)
  ∧ StronglySorted lt (scan_buttons levels)
  ∧ NoDup (scan_buttons levels)
  ∧ chord_of (length levels) (scan_buttons levels)
  ∧ (length (scan_buttons levels) <= length levels)%nat.
Proof.
  pose proof (elem_of_scan_buttons levels) as Hmem.
  pose proof (scan_from_sorted 0 levels) as Hsorted.
  split; [done|]. split; [done|].
  split; [by apply strictly_sorted_NoDup|].
  split; [|apply length_scan_from].
  split; [done|]. apply Forall_forall. intros i Hi%Hmem.
  by eapply lookup_lt_Some.
Qed.

(** X2.  Two readings give the same chord exactly when the same
    positions read 0: the chord forgets nothing about which buttons are
    pressed and depends on nothing else (not on what a released pin
    reads, nor on trailing released pins). *)
Theorem scan_buttons_same_chord levels1 levels2 :
  scan_buttons levels1 = scan_buttons levels2
  ↔ ∀ i, levels1 !! i = Some 0 ↔ levels2 !! i = Some 0.
Proof.
  split.
  - intros Heq i. rewrite <- !elem_of_scan_buttons. by rewrite Heq.
  - intros Hsame. apply strictly_sorted_ext; try apply scan_from_sorted.
    intros i. rewrite !elem_of_scan_buttons. apply Hsame.
Qed.

Lemma lookup_levels_of n c i :
  levels_of n c !! i = Some 0 ↔ (i < n)%nat ∧ i ∈ c.
Proof.
  unfold levels_of. rewrite list_lookup_fmap.
  destruct (decide (i < n)%nat) as [Hlt|Hge].
  - rewrite lookup_seq_lt by done. cbn.
    case_bool_decide; intuition congruence.
  - rewrite lookup_seq_ge by lia. cbn. intuition congruence.
Qed.

Lemma length_levels_of n c : length (levels_of n c) = n.
Proof. unfold levels_of. by rewrite length_fmap, length_seq. Qed.

Lemma levels_of_scans_back n c :
  chord_of n c -> scan_buttons (levels_of n c) = c.
Proof.
  intros [Hsorted Hbelow].
  apply strictly_sorted_ext; [apply scan_from_sorted|done|].
  intros i. rewrite elem_of_scan_buttons, lookup_levels_of.
  rewrite Forall_forall in Hbelow. split; [by intros []|].
  intros Hi. split; [by apply Hbelow|done].
Qed.

(** X3.  Every ascending chord of indices below [n] is what
    [scan_buttons] returns for some reading of [n] pins, namely the one
    with exactly its buttons at 0: the scan reaches every chord and gives
    it back unchanged. *)
Theorem scan_buttons_levels_of n c :
  chord_of n c ->
  length (levels_of n c) = n
  ∧ scan_buttons (levels_of n c) = c
  ∧ ∀ levels, scan_buttons levels = c ->
      ∀ i, levels !! i = Some 0 ↔ levels_of n c !! i = Some 0.
Proof.
  intros Hc. split; [apply length_levels_of|].
  split; [by apply levels_of_scans_back|].
  intros levels Hscan i.
  rewrite <- !elem_of_scan_buttons, Hscan. by rewrite levels_of_scans_back.
Qed.

Lemma scan_buttons_levels_of_witness :
  scan_buttons (levels_of 6 [1%nat; 3%nat]) = [1%nat; 3%nat].
Proof.
  apply (scan_buttons_levels_of 6 [1%nat; 3%nat]).
  split; repeat constructor; lia.
Defined.

(** ** The configured chords *)

Lemma COMBO_MAP_chords :
  map_Forall (fun c _ => chord_of 6 c ∧ c ≠ []) COMBO_MAP.
Proof.
  unfold COMBO_MAP.
  repeat (apply map_Forall_insert_2;
          [split; [split; repeat constructor; lia|done]|]).
  apply map_Forall_empty.
Qed.

(** X4.  Every chord that [COMBO_MAP] has an entry for can be played on
    the [BUTTON_PINS]: it is a non-empty ascending chord of indices below
    the number of buttons, and some reading of that many pins scans to
    it.  No entry is out of reach of the scanner, and the chord of no
    button pressed has no entry. *)
Theorem combo_map_chords_are_playable (c : chord) entry :
  COMBO_MAP !! c = Some entry ->
  chord_of (length BUTTON_PINS) c
  ∧ c ≠ []
  ∧ ∃ levels, length levels = length BUTTON_PINS
              ∧ scan_buttons levels = c.
Proof.
  intros Hentry. destruct (COMBO_MAP_chords _ _ Hentry) as [Hc Hne].
  split; [done|]. split; [done|].
  exists (levels_of 6 c).
  split; [apply length_levels_of|by apply levels_of_scans_back].
Qed.

Lemma combo_map_chords_are_playable_witness :
  ∃ levels, length levels = length BUTTON_PINS
            ∧ scan_buttons levels = [0%nat; 2%nat].
Proof.
  apply (combo_map_chords_are_playable [0%nat; 2%nat] (0x02, [0x04])).
  by_evaluation.
Defined.

(** ** [advertising_payload] *)

Lemma _append_record ad_type value payload :
  _append ad_type value payload
  = payload ++ ad_record_bytes (ad_type, value).
Proof. unfold _append, ad_record_bytes. cbn. by rewrite <- app_assoc. Qed.

Lemma service_records_bytes uuids payload :
  foldl (fun payload b =>
           if bool_decide (length b = 2%nat) then _append 0x03 b payload
           else if bool_decide (length b = 16%nat)
                then _append 0x07 b payload
           else payload) payload uuids
  = payload
    ++ concat (ad_record_bytes <$> concat (service_record <$> uuids)).
Proof.
  revert payload. induction uuids as [|b uuids IH]; intros payload.
  - cbn. by rewrite app_nil_r.
  - cbn [foldl]. rewrite IH. rewrite !fmap_cons. cbn [concat].
    rewrite fmap_app, concat_app, app_assoc. f_equal.
    unfold service_record. repeat case_bool_decide; cbn [fmap list_fmap concat];
      rewrite ?_append_record, ?app_nil_r; done.
Qed.

Lemma advertising_payload_bytes name services :
  advertising_payload name services
  = concat (ad_record_bytes
              <$> name_record name
                  ++ concat (service_record <$> default [] services)).
Proof.
  unfold advertising_payload. cbn zeta.
  rewrite fmap_app, concat_app.
  assert (Hname :
    match name with
    | Some n => if bool_decide (n = EmptyString) then []
                else _append 0x09 (encode n) []
    | None => []
    end = concat (ad_record_bytes <$> name_record name)).
  { destruct name as [n|]; cbn; [|done].
    case_bool_decide; [done|]. cbn. by rewrite app_nil_r. }
  rewrite Hname. destruct services as [uuids|]; cbn [default].
  - apply service_records_bytes.
  - cbn. by rewrite app_nil_r.
Qed.

Lemma ad_records_from_bytes records fuel :
  (length records <= fuel)%nat ->
  ad_records_from fuel (concat (ad_record_bytes <$> records)) = Some records.
Proof.
  revert fuel. induction records as [|[ad_type value] records IH];
    intros fuel Hfuel.
  - by destruct fuel.
  - destruct fuel as [|fuel]; [cbn in Hfuel; lia|].
    rewrite fmap_cons. cbn [concat ad_record_bytes fst snd app ad_records_from].
    replace (Z.to_nat (Z.of_nat (length value) + 1 - 1))
      with (length value) by lia.
    rewrite !bool_decide_eq_true_2 by (rewrite ?length_app; lia).
    cbn [andb]. rewrite drop_app_length, take_app_length.
    rewrite IH by (cbn in Hfuel; lia). done.
Qed.

Lemma length_ad_records_bytes records :
  (length records <= length (concat (ad_record_bytes <$> records)))%nat.
Proof.
  induction records as [|r records IH]; [done|].
  rewrite fmap_cons. cbn [concat]. rewrite length_app. cbn. lia.
Qed.

Lemma encode_bytes name : Forall is_byte (encode name).
Proof.
  unfold encode. apply Forall_fmap, Forall_forall. intros a _. cbn.
  pose proof (N_ascii_bounded a). unfold is_byte. lia.
Qed.

Lemma ad_record_bytes_bytes records :
  Forall (fun r => is_byte r.1 ∧ Forall is_byte r.2
                   ∧ (length r.2 < 255)%nat) records ->
  Forall is_byte (concat (ad_record_bytes <$> records)).
Proof.
  induction 1 as [|[ad_type value] records (Ht & Hv & Hl) _ IH]; [done|].
  rewrite fmap_cons. cbn [concat]. apply Forall_app. split; [|done].
  cbn in *. apply Forall_cons. split; [unfold is_byte; lia|].
  by apply Forall_cons.
Qed.

Lemma service_record_bytes b :
  Forall is_byte b ->
  Forall (fun r => is_byte r.1 ∧ Forall is_byte r.2
                   ∧ (length r.2 < 255)%nat) (service_record b).
Proof.
  intros Hb. unfold service_record.
  repeat case_bool_decide; try apply Forall_nil_2;
    (apply Forall_cons; split; [|apply Forall_nil_2]; cbn;
     split; [unfold is_byte; lia|split; [done|lia]]).
Qed.

(** X5.  Round trip: the payload built from a name and a list of
    [bytes(uuid)] reads back, record by record, as the name under type
    0x09 (when there is a non-empty name) followed by each 2-byte UUID
    under type 0x03 and each 16-byte UUID under type 0x07, in the order
    given; and the payload is a string of bytes.  The name must be
    shorter than 255 bytes for its length to fit the length byte. *)
Theorem advertising_payload_round_trip name uuids :
  (length (encode name) < 255)%nat ->
  Forall (Forall is_byte) uuids ->
  ad_records (advertising_payload (Some name) (Some uuids))
  = Some (name_record (Some name) ++ concat (service_record <$> uuids))
  ∧ Forall is_byte (advertising_payload (Some name) (Some uuids))
  ∧ (name ≠ EmptyString -> name_record (Some name) = [(0x09, encode name)]).
Proof.
  intros Hname Huuids. split; [|split].
  - rewrite advertising_payload_bytes. cbn [default]. unfold ad_records.
    apply ad_records_from_bytes, length_ad_records_bytes.
  - rewrite advertising_payload_bytes. cbn [default from_option id].
    apply ad_record_bytes_bytes, Forall_app. split.
    + cbn. case_bool_decide; [done|]. apply Forall_cons. split; [|done].
      cbn. split; [unfold is_byte; lia|]. split; [apply encode_bytes|done].
    + induction Huuids as [|b uuids Hb _ IH]; [done|].
      rewrite fmap_cons. cbn [concat]. apply Forall_app. split; [|done].
      by apply service_record_bytes.
  - intros Hne. cbn. by rewrite bool_decide_eq_false_2.
Qed.

Lemma advertising_payload_round_trip_witness :
  ad_records (advertising_payload (Some "ChordyPad"%string)
                (Some [_HID_UUID]))
  = Some (name_record (Some "ChordyPad"%string)
          ++ concat (service_record <$> [_HID_UUID])).
Proof.
  apply (advertising_payload_round_trip "ChordyPad" [_HID_UUID]).
  - cbn; lia.
  - repeat constructor; by_evaluation.
Defined.

Lemma service_record_filter uuids :
  concat (service_record <$> uuids)
  = concat (service_record
              <$> filter (fun b => length b = 2%nat ∨ length b = 16%nat)
                    uuids).
Proof.
  induction uuids as [|b uuids IH]; [done|].
  rewrite fmap_cons. cbn [concat]. rewrite IH.
  unfold service_record at 1.
  destruct (decide (length b = 2%nat)) as [H2|H2].
  - rewrite filter_cons_True by auto. rewrite fmap_cons. cbn [concat].
    unfold service_record at 2. by rewrite bool_decide_eq_true_2.
  - rewrite (bool_decide_eq_false_2 _ H2).
    destruct (decide (length b = 16%nat)) as [H16|H16].
    + rewrite filter_cons_True by auto. rewrite fmap_cons. cbn [concat].
      unfold service_record at 2.
      by rewrite (bool_decide_eq_false_2 _ H2), bool_decide_eq_true_2.
    + rewrite filter_cons_False by tauto.
      by rewrite (bool_decide_eq_false_2 _ H16).
Qed.

(** X6.  What leaves no trace in the payload: a UUID whose bytes are
    neither 2 nor 16 long is skipped without an error, an empty name is
    as good as none, an empty list of services as good as none, and with
    neither name nor services the payload is empty. *)
Theorem advertising_payload_skips name uuids :
  advertising_payload name (Some uuids)
  = advertising_payload name
      (Some (filter (fun b => length b = 2%nat ∨ length b = 16%nat) uuids))
  ∧ advertising_payload (Some EmptyString) (Some uuids)
    = advertising_payload None (Some uuids)
  ∧ advertising_payload name (Some []) = advertising_payload name None
  ∧ advertising_payload None None = [].
Proof.
  split; [|by repeat split].
  rewrite !advertising_payload_bytes. cbn [default from_option id].
  by rewrite <- service_record_filter.
Qed.

(** ** Connection events and reports *)

Lemma notified_app conn_handle cs1 cs2 :
  notified conn_handle (cs1 ++ cs2)
  = (notified conn_handle cs1 + notified conn_handle cs2)%nat.
Proof. unfold notified. by rewrite filter_app, length_app. Qed.

Lemma irq_connect conn_handle addr_type addr self :
  BLEKeyboard._irq 1 (conn_handle, addr_type, addr) self
  = (with_connections (fun s => {[conn_handle]} ∪ s) self, Some tt).
Proof. done. Qed.

Lemma irq_disconnect conn_handle addr_type addr self :
  BLEKeyboard._irq 2 (conn_handle, addr_type, addr) self
  = (logged [GapAdvertise 100000 (_payload self)]
       (with_connections (fun s => s ∖ {[conn_handle]}) self), Some tt).
Proof. done. Qed.

Lemma irq_other event data self :
  event ≠ 1 -> event ≠ 2 -> BLEKeyboard._irq event data self = (self, Some tt).
Proof.
  intros H1 H2. unfold BLEKeyboard._irq.
  by rewrite !bool_decide_eq_false_2 by done.
Qed.

(** X7.  A report sent after a connect event for a peer reaches that peer
    exactly once, also if the peer was connected before; a report sent
    after its disconnect event does not reach it at all; and either event
    changes nothing in what any other peer receives. *)
Theorem reports_follow_connection_events self conn_handle addr_type addr
    report :
  let joined :=
    (BLEKeyboard._irq _IRQ_CENTRAL_CONNECT
       (conn_handle, addr_type, addr) self).1 in
  let left :=
    (BLEKeyboard._irq _IRQ_CENTRAL_DISCONNECT
       (conn_handle, addr_type, addr) self).1 in
  BLEKeyboard.send_report report joined
  = (logged (notifications joined report) joined, Some tt)
  ∧ BLEKeyboard.send_report report left
    = (logged (notifications left report) left, Some tt)
  ∧ notified conn_handle (notifications joined report) = 1%nat
  ∧ notified conn_handle (notifications left report) = 0%nat
  ∧ ∀ other, other ≠ conn_handle ->
      notified other (notifications joined report)
      = notified other (notifications self report)
      ∧ notified other (notifications left report)
        = notified other (notifications self report).
Proof.
  intros joined left. unfold joined, left, _IRQ_CENTRAL_CONNECT,
    _IRQ_CENTRAL_DISCONNECT. rewrite irq_connect, irq_disconnect. cbn [fst].
  split; [apply send_report_spec|]. split; [apply send_report_spec|].
  rewrite !notified_notifications. cbn [_connections logged with_connections].
  split.
  { by rewrite bool_decide_eq_true_2
      by (by apply elem_of_union_l, elem_of_singleton). }
  split.
  { rewrite bool_decide_eq_false_2; [done|].
    rewrite elem_of_difference, elem_of_singleton. tauto. }
  intros other Hother. rewrite !notified_notifications.
  cbn [_connections logged with_connections].
  assert (Hj : other ∈ {[conn_handle]} ∪ _connections self
               ↔ other ∈ _connections self)
    by (rewrite elem_of_union, elem_of_singleton; tauto).
  assert (Hl : other ∈ _connections self ∖ {[conn_handle]}
               ↔ other ∈ _connections self)
    by (rewrite elem_of_difference, elem_of_singleton; tauto).
  by rewrite (bool_decide_ext _ _ Hj), (bool_decide_ext _ _ Hl).
Qed.

(** X8.  The connection set does not count: however often a peer was
    reported connected, one disconnect event removes it.  A connect event
    followed by a disconnect event for the same peer leaves the set
    without that peer (unchanged, if the peer was not in it) and
    advertises once. *)
Theorem connect_then_disconnect self conn_handle addr_type addr addr_type'
    addr' :
  (BLEKeyboard._irq _IRQ_CENTRAL_CONNECT (conn_handle, addr_type, addr)
   ≫= fun _ =>
   BLEKeyboard._irq _IRQ_CENTRAL_DISCONNECT (conn_handle, addr_type', addr'))
    self
  = (logged [GapAdvertise 100000 (_payload self)]
       (with_connections (fun s => s ∖ {[conn_handle]}) self), Some tt)
  ∧ (conn_handle ∉ _connections self ->
     with_connections (fun s => s ∖ {[conn_handle]}) self = self).
Proof.
  split.
  - unfold mbind, M_bind, _IRQ_CENTRAL_CONNECT, _IRQ_CENTRAL_DISCONNECT.
    rewrite irq_connect, irq_disconnect.
    unfold logged, with_connections. cbn. do 2 f_equal.
    apply set_eq. intros x.
    rewrite !elem_of_difference, elem_of_union, elem_of_singleton. tauto.
  - intros Hout. apply with_connections_same.
    by apply difference_disjoint_L, disjoint_singleton_r.
Qed.

(** ** [key_press] *)

Lemma le_bytes_are_bytes n v : Forall is_byte (le_bytes n v).
Proof.
  revert v. induction n as [|n IH]; intros v; cbn [le_bytes]; [done|].
  apply Forall_cons. split; [|apply IH].
  change 255 with (Z.ones 8). rewrite Z.land_ones by lia.
  unfold is_byte. pose proof (Z.mod_pos_bound v (2 ^ 8)). lia.
Qed.

Lemma pack_value_bytes chk c v bs :
  pack_value chk c v = Some bs ->
  bs = le_bytes (fmt_size c) v.
Proof.
  unfold pack_value. case_bool_decide; [congruence|].
  destruct chk; congruence.
Qed.

(** Whatever [pack] is given, what it returns has the size of the format
    and is made of bytes. *)
Lemma struct_pack_shape chk fmt vals data :
  struct_pack chk fmt vals = Some data ->
  length data = calcsize fmt ∧ Forall is_byte data.
Proof.
  revert vals data.
  induction fmt as [|c fmt IH]; intros vals data.
  - destruct vals; cbn; [by intros [= <-]|]. destruct chk; [done|].
    by intros [= <-].
  - destruct vals as [|v vals]; cbn [struct_pack].
    + destruct chk; [done|].
      destruct (struct_pack Unchecked fmt []) as [rest|] eqn:Hrest;
        cbn; [|done].
      intros [= <-]. destruct (IH _ _ Hrest) as [Hl Hb].
      rewrite length_app, length_replicate, Hl. split; [done|].
      apply Forall_app. split; [|done].
      apply Forall_replicate. unfold is_byte. lia.
    + destruct (pack_value chk c v) as [bs|] eqn:Hbs; cbn; [|done].
      destruct (struct_pack chk fmt vals) as [rest|] eqn:Hrest;
        cbn; [|done].
      intros [= <-]. destruct (IH _ _ Hrest) as [Hl Hb].
      apply pack_value_bytes in Hbs as ->.
      rewrite length_app, length_le_bytes, Hl. split; [done|].
      apply Forall_app. split; [apply le_bytes_are_bytes|done].
Qed.

Lemma struct_pack_cons chk c fmt v vals data :
  struct_pack chk (c :: fmt) (v :: vals) = Some data ->
  ∃ rest, data = le_bytes (fmt_size c) v ++ rest
          ∧ struct_pack chk fmt vals = Some rest.
Proof.
  cbn [struct_pack].
  destruct (pack_value chk c v) as [bs|] eqn:Hbs; cbn [mbind option_bind];
    [|done].
  destruct (struct_pack chk fmt vals) as [rest|]; cbn [mbind option_bind];
    [|done].
  intros [= <-]. apply pack_value_bytes in Hbs as ->. by exists rest.
Qed.

Lemma key_press_report_shape chk modifier keycodes report :
  BLEKeyboard.key_press_report chk modifier keycodes = Some report ->
  length report = 8%nat ∧ Forall is_byte report
  ∧ report !! 0%nat = Some 1
  ∧ report !! 1%nat = Some (Z.land modifier 255).
Proof.
  intros Hr. destruct (struct_pack_shape _ _ _ _ Hr) as [Hl Hb].
  split; [done|]. split; [done|].
  unfold BLEKeyboard.key_press_report in Hr.
  apply struct_pack_cons in Hr as (rest1 & -> & Hr).
  apply struct_pack_cons in Hr as (rest2 & -> & _).
  done.
Qed.

(** X9.  [key_press] is all or nothing.  Either [struct.pack] raises and
    nothing at all has been sent, the keyboard being as before; or one
    report goes to every connection, and that report is eight bytes long,
    made of bytes, starts with the report id 1 and has the low eight bits
    of the modifier second.  This holds for any modifier and any
    keycodes, in range or not, on either runtime. *)
Theorem key_press_all_or_nothing chk modifier keycodes self :
  (BLEKeyboard.key_press_report chk modifier keycodes = None
   ∧ BLEKeyboard.key_press chk modifier keycodes self = (self, None))
  ∨ (∃ report,
       BLEKeyboard.key_press_report chk modifier keycodes = Some report
       ∧ BLEKeyboard.key_press chk modifier keycodes self
         = (logged (notifications self report) self, Some tt)
       ∧ length report = 8%nat
       ∧ Forall is_byte report
       ∧ report !! 0%nat = Some 1
       ∧ report !! 1%nat = Some (Z.land modifier 255)).
Proof.
  destruct (BLEKeyboard.key_press_report chk modifier keycodes)
    as [report|] eqn:Hr.
  - right. exists report. split; [done|].
    split; [by apply key_press_sends|]. by eapply key_press_report_shape.
  - left. split; [done|]. by apply key_press_raises.
Qed.

(** X10.  For at most six keycodes: a zero keycode cannot be told from
    an empty slot, since adding a keycode 0 at the end of fewer than six
    keycodes gives the same report, on either runtime; and apart from
    that the report determines what was pressed, since for bytes two
    calls with at most six keycodes each build the same report only if
    the modifiers are equal and the keycodes agree once both are padded
    with zeros to six. *)
Theorem key_press_report_padding chk modifier keycodes :
  (length keycodes <= 6)%nat ->
  ((length keycodes < 6)%nat ->
   BLEKeyboard.key_press_report chk modifier (keycodes ++ [0])
   = BLEKeyboard.key_press_report chk modifier keycodes)
  ∧ ∀ modifier' keycodes',
      is_byte modifier -> Forall is_byte keycodes ->
      is_byte modifier' -> Forall is_byte keycodes' ->
      (length keycodes' <= 6)%nat ->
      BLEKeyboard.key_press_report chk modifier keycodes
      = BLEKeyboard.key_press_report chk modifier' keycodes' ->
      modifier = modifier'
      ∧ keycodes ++ replicate (6 - length keycodes) 0
        = keycodes' ++ replicate (6 - length keycodes') 0.
Proof.
  intros Hlen. split.
  - intros Hfree. unfold BLEKeyboard.key_press_report. do 3 f_equal.
    rewrite length_app. cbn [length].
    replace (Z.to_nat (6 - Z.of_nat (length keycodes)))
      with (S (Z.to_nat (6 - Z.of_nat (length keycodes + 1)))) by lia.
    cbn [replicate]. by rewrite <- app_assoc.
  - intros modifier' keycodes' Hm Hk Hm' Hk' Hlen'.
    rewrite !key_press_report_bytes by (done || lia).
    intros [= -> Hpad]. done.
Qed.

Lemma key_press_report_padding_witness :
  BLEKeyboard.key_press_report Checked 0x02 ([0x04] ++ [0])
  = BLEKeyboard.key_press_report Checked 0x02 [0x04]
  ∧ (BLEKeyboard.key_press_report Checked 0x02 [4; 5; 6; 7; 8; 9]
     = BLEKeyboard.key_press_report Checked 0x02 [4; 5; 6; 7; 8; 9] ->
     0x02 = 0x02
     ∧ [4; 5; 6; 7; 8; 9] ++ replicate (6 - 6) 0
       = [4; 5; 6; 7; 8; 9] ++ replicate (6 - 6) 0).
Proof.
  split.
  - apply (key_press_report_padding Checked 0x02 [0x04]); cbn; lia.
  - apply (key_press_report_padding Checked 0x02 [4; 5; 6; 7; 8; 9]);
      try (cbn; lia); try (unfold is_byte; lia);
      repeat (apply Forall_cons; split; [unfold is_byte; lia|]);
      apply Forall_nil_2.
Defined.

(** ** What a run keeps *)

Lemma notifications_keyboard_calls self report :
  length report = 8%nat -> Forall is_byte report ->
  report !! 0%nat = Some 1 ->
  Forall (keyboard_call self) (notifications self report).
Proof.
  intros Hl Hb H0. unfold notifications. apply Forall_fmap, Forall_forall.
  intros conn_handle _. cbn. done.
Qed.

Lemma release_all_keyboard_calls self :
  Forall (keyboard_call self) (notifications self RELEASE_ALL).
Proof.
  apply notifications_keyboard_calls; [done| |done].
  repeat (apply Forall_cons; split; [unfold is_byte; lia|]).
  apply Forall_nil_2.
Qed.

Lemma same_setup_logged cs self : same_setup self (logged cs self).
Proof. by repeat split. Qed.

Lemma same_setup_with_connections f self :
  same_setup self (with_connections f self).
Proof. by repeat split. Qed.

Lemma same_setup_trans self1 self2 self3 :
  same_setup self1 self2 -> same_setup self2 self3 -> same_setup self1 self3.
Proof.
  unfold same_setup. intros (?&?&?&?&?) (?&?&?&?&?).
  repeat split; congruence.
Qed.

Lemma keyboard_call_same_setup self self' c :
  same_setup self self' -> keyboard_call self' c -> keyboard_call self c.
Proof.
  intros (Hr & _ & _ & _ & Hp). destruct c; cbn; try done.
  - by rewrite Hp.
  - by rewrite Hr.
Qed.

Section Keeps.

Context (chk : struct_checks) (cfg : combo_map).

Lemma loop_body_cases levels now fr :
  loop_body chk cfg levels now fr = (fr, Some tt)
  ∨ ∃ cs r,
      loop_body chk cfg levels now fr
      = (accepted (scan_buttons levels) now cs fr, r)
      ∧ scan_buttons levels ≠ last_state fr
      ∧ ticks_diff now (last_change fr) > DEBOUNCE_MS
      ∧ (cs = notifications (keyboard fr) RELEASE_ALL
         ∨ ∃ report,
             length report = 8%nat ∧ Forall is_byte report
             ∧ report !! 0%nat = Some 1
             ∧ cs = notifications (keyboard fr) RELEASE_ALL
                    ++ notifications (keyboard fr) report).
Proof.
  destruct (decide (scan_buttons levels = last_state fr)) as [Heq|Hne];
    [left; apply loop_body_rejected; auto|].
  destruct (decide (ticks_diff now (last_change fr) <= DEBOUNCE_MS))
    as [Hsoon|Hlate]; [left; apply loop_body_rejected; auto|].
  assert (Hgt : ticks_diff now (last_change fr) > DEBOUNCE_MS) by lia.
  right.
  destruct (cfg !! scan_buttons levels) as [[modifier keycodes]|] eqn:Hc.
  - destruct (BLEKeyboard.key_press_report chk modifier keycodes)
      as [report|] eqn:Hr.
    + eexists _, _. split; [by eapply loop_body_mapped|].
      do 2 (split; [done|]). right. exists report.
      destruct (key_press_report_shape _ _ _ _ Hr) as (?&?&?&_). done.
    + eexists _, _. split; [by eapply loop_body_raises|].
      do 2 (split; [done|]). by left.
  - eexists _, _. split; [by apply loop_body_unmapped|].
    do 2 (split; [done|]). by left.
Qed.

Lemma step_keeps o fr :
  ∃ cs, history (step chk cfg o fr).1 = history fr ++ cs
        ∧ Forall (keyboard_call (keyboard fr)) cs
        ∧ same_setup (keyboard fr) (keyboard (step chk cfg o fr).1).
Proof.
  destruct o as [levels now | event [[conn_handle addr_type] addr]];
    cbn [step].
  - destruct (loop_body_cases levels now fr)
      as [-> | (cs & r & -> & _ & _ & Hcs)].
    + exists []. cbn [fst]. rewrite app_nil_r. by repeat split.
    + exists cs. cbn [fst]. split; [done|].
      split; [|apply same_setup_logged].
      destruct Hcs as [-> | (report & Hl & Hb & H0 & ->)].
      * apply release_all_keyboard_calls.
      * apply Forall_app. split; [apply release_all_keyboard_calls|].
        by apply notifications_keyboard_calls.
  - unfold on_keyboard.
    destruct (decide (event = 1)) as [->|H1];
      [|destruct (decide (event = 2)) as [->|H2]].
    + rewrite irq_connect. exists []. cbn. rewrite app_nil_r.
      by repeat split.
    + rewrite irq_disconnect. exists [GapAdvertise 100000
                                        (_payload (keyboard fr))].
      cbn. split; [done|].
      split; [apply Forall_cons; split; [done|apply Forall_nil_2]|].
      by repeat split.
    + rewrite irq_other by done. exists []. cbn. rewrite app_nil_r.
      by repeat split.
Qed.

Lemma run_keeps os fr :
  ∃ cs, history (run chk cfg os fr).1 = history fr ++ cs
        ∧ Forall (keyboard_call (keyboard fr)) cs
        ∧ same_setup (keyboard fr) (keyboard (run chk cfg os fr).1).
Proof.
  revert fr. induction os as [|o os IH]; intros fr.
  - exists []. cbn. rewrite app_nil_r. by repeat split.
  - rewrite run_cons. destruct (step_keeps o fr) as (cs1 & H1 & Hc1 & Hs1).
    destruct (step chk cfg o fr) as [fr' [[]|]]; cbn [fst] in *.
    + destruct (IH fr') as (cs2 & H2 & Hc2 & Hs2). exists (cs1 ++ cs2).
      split; [by rewrite H2, H1, app_assoc|].
      split; [|by eapply same_setup_trans].
      apply Forall_app. split; [done|].
      eapply Forall_impl; [exact Hc2|].
      intros c. by apply keyboard_call_same_setup.
    + by exists cs1.
Qed.

End Keeps.

(** X11.  Through any run, with any combination map and on either
    runtime, the handles and the advertising payload of the keyboard stay
    what they were, earlier calls on the BLE object are not forgotten,
    and every further call is of one of two kinds: a notification, on the
    report handle, of a report of exactly eight bytes that starts with
    the report id 1; or an advertisement of the stored payload at the
    interval 100000. *)
Theorem run_makes_keyboard_calls_only chk cfg os fr :
  let fr' := (run chk cfg os fr).1 in
  same_setup (keyboard fr) (keyboard fr')
  ∧ ∃ cs, history fr' = history fr ++ cs
          ∧ Forall (keyboard_call (keyboard fr)) cs.
Proof.
  cbn zeta. destruct (run_keeps chk cfg os fr) as (cs & Hh & Hc & Hs).
  split; [done|]. by exists cs.
Qed.

(** ** Ticks and connection events *)

Lemma notifications_to_members self report :
  Forall (fun c => ∃ conn_handle,
            c = GattsNotify conn_handle (_report_handle self) report
            ∧ conn_handle ∈ _connections self)
         (notifications self report).
Proof.
  unfold notifications. apply Forall_fmap, Forall_forall.
  intros conn_handle Hin%elem_of_elements. cbn. by exists conn_handle.
Qed.

(** X12.  Ticks and connection events touch different things.  A tick
    never changes the connection set, and every call it makes is a
    notification on the report handle to a peer that is in the set at
    that tick.  A connection event of any code never raises, never
    changes the stable chord or the time of its last change, and sends no
    report to anybody. *)
Theorem ticks_and_events_keep_apart chk cfg fr :
  (∀ levels now,
     let fr' := (loop_body chk cfg levels now fr).1 in
     _connections (keyboard fr') = _connections (keyboard fr)
     ∧ ∃ cs, history fr' = history fr ++ cs
             ∧ Forall (fun c => ∃ conn_handle data,
                         c = GattsNotify conn_handle
                               (_report_handle (keyboard fr)) data
                         ∧ conn_handle ∈ _connections (keyboard fr)) cs)
  ∧ (∀ event data,
       let r := step chk cfg (Interrupt event data) fr in
       r.2 = Some tt
       ∧ last_state r.1 = last_state fr
       ∧ last_change r.1 = last_change fr
       ∧ ∀ conn_handle,
           notified conn_handle (history r.1)
           = notified conn_handle (history fr)).
Proof.
  split.
  - intros levels now. cbn zeta.
    assert (Hmem : ∀ report,
      Forall (fun c => ∃ conn_handle data,
                c = GattsNotify conn_handle
                      (_report_handle (keyboard fr)) data
                ∧ conn_handle ∈ _connections (keyboard fr))
             (notifications (keyboard fr) report)).
    { intros report. eapply Forall_impl; [apply notifications_to_members|].
      intros c (conn_handle & -> & Hin). by exists conn_handle, report. }
    destruct (loop_body_cases chk cfg levels now fr)
      as [-> | (cs & r & -> & _ & _ & Hcs)].
    + split; [done|]. exists []. cbn. by rewrite app_nil_r.
    + split; [done|]. exists cs. split; [done|].
      destruct Hcs as [-> | (report & _ & _ & _ & ->)]; [apply Hmem|].
      apply Forall_app. split; apply Hmem.
  - intros event [[conn_handle addr_type] addr]. cbn zeta.
    cbn [step]. unfold on_keyboard.
    destruct (decide (event = 1)) as [->|H1];
      [|destruct (decide (event = 2)) as [->|H2]].
    + by rewrite irq_connect.
    + rewrite irq_disconnect. cbn -[notified]. repeat (split; [done|]).
      intros conn. unfold history. cbn -[notified].
      rewrite notified_app.
      change (notified conn [GapAdvertise 100000 (_payload (keyboard fr))])
        with 0%nat. lia.
    + by rewrite irq_other by done.
Qed.

Section Tracking.

Context (chk : struct_checks) (cfg : combo_map).

Lemma loop_body_tracking levels now fr1 fr2 :
  last_state fr1 = last_state fr2 -> last_change fr1 = last_change fr2 ->
  last_state (loop_body chk cfg levels now fr1).1
  = last_state (loop_body chk cfg levels now fr2).1
  ∧ last_change (loop_body chk cfg levels now fr1).1
    = last_change (loop_body chk cfg levels now fr2).1
  ∧ (loop_body chk cfg levels now fr1).2
    = (loop_body chk cfg levels now fr2).2.
Proof.
  intros Hs Hc.
  destruct (decide (scan_buttons levels = last_state fr1)) as [Heq|Hne].
  { rewrite !loop_body_rejected by (left; congruence). done. }
  destruct (decide (ticks_diff now (last_change fr1) <= DEBOUNCE_MS))
    as [Hsoon|Hlate].
  { rewrite !loop_body_rejected by (right; congruence). done. }
  assert (Hne2 : scan_buttons levels ≠ last_state fr2) by congruence.
  assert (Hgt1 : ticks_diff now (last_change fr1) > DEBOUNCE_MS) by lia.
  assert (Hgt2 : ticks_diff now (last_change fr2) > DEBOUNCE_MS)
    by (rewrite <- Hc; lia).
  destruct (cfg !! scan_buttons levels) as [[modifier keycodes]|] eqn:He.
  - destruct (BLEKeyboard.key_press_report chk modifier keycodes)
      as [report|] eqn:Hr.
    + by rewrite !(loop_body_mapped chk cfg _ _ _ _ _ report) by done.
    + by rewrite !(loop_body_raises chk cfg _ _ _ modifier keycodes) by done.
  - by rewrite !loop_body_unmapped by done.
Qed.

Lemma step_tracking o fr1 fr2 :
  last_state fr1 = last_state fr2 -> last_change fr1 = last_change fr2 ->
  last_state (step chk cfg o fr1).1 = last_state (step chk cfg o fr2).1
  ∧ last_change (step chk cfg o fr1).1 = last_change (step chk cfg o fr2).1
  ∧ (step chk cfg o fr1).2 = (step chk cfg o fr2).2.
Proof.
  intros Hs Hc. destruct o as [levels now | event data]; cbn [step].
  - by apply loop_body_tracking.
  - destruct data as [[conn_handle addr_type] addr]. unfold on_keyboard.
    destruct (decide (event = 1)) as [->|H1];
      [|destruct (decide (event = 2)) as [->|H2]].
    + by rewrite !irq_connect.
    + by rewrite !irq_disconnect.
    + by rewrite !irq_other by done.
Qed.

Lemma run_tracking os fr1 fr2 :
  last_state fr1 = last_state fr2 -> last_change fr1 = last_change fr2 ->
  last_state (run chk cfg os fr1).1 = last_state (run chk cfg os fr2).1
  ∧ last_change (run chk cfg os fr1).1 = last_change (run chk cfg os fr2).1
  ∧ (run chk cfg os fr1).2 = (run chk cfg os fr2).2.
Proof.
  revert fr1 fr2. induction os as [|o os IH]; intros fr1 fr2 Hs Hc; [done|].
  rewrite !run_cons.
  destruct (step_tracking o fr1 fr2 Hs Hc) as (Hs' & Hc' & Hr').
  destruct (step chk cfg o fr1) as [fr1' r1],
           (step chk cfg o fr2) as [fr2' r2]. cbn [fst snd] in *.
  subst r2. destruct r1 as [[]|]; [by apply IH|done].
Qed.

End Tracking.

(** X13.  Chord tracking does not depend on the radio.  Two runs over the
    same ticks and connection events that start with the same stable
    chord and the same time of last change end with the same stable
    chord and time, and raise or not alike, whatever the two keyboards
    are: who is connected, what the handles are, what was sent before. *)
Theorem chord_tracking_ignores_the_keyboard chk cfg os fr1 fr2 :
  last_state fr1 = last_state fr2 ->
  last_change fr1 = last_change fr2 ->
  last_state (run chk cfg os fr1).1 = last_state (run chk cfg os fr2).1
  ∧ last_change (run chk cfg os fr1).1 = last_change (run chk cfg os fr2).1
  ∧ (run chk cfg os fr1).2 = (run chk cfg os fr2).2.
Proof. apply run_tracking. Qed.

Lemma chord_tracking_ignores_the_keyboard_witness :
  let os := [ Tick [0; 1; 0; 1; 1; 1] 26; Tick [1; 1; 1; 1; 1; 1] 60 ] in
  let fr1 := main_start (10, 11, 12, 13) 0 in
  let fr2 := (run Checked COMBO_MAP [Interrupt 1 (7, 0, [])]
                (main_start (20, 21, 22, 23) 0)).1 in
  last_state (run Checked COMBO_MAP os fr1).1
  = last_state (run Checked COMBO_MAP os fr2).1
  ∧ last_change (run Checked COMBO_MAP os fr1).1
    = last_change (run Checked COMBO_MAP os fr2).1
  ∧ (run Checked COMBO_MAP os fr1).2 = (run Checked COMBO_MAP os fr2).2.
Proof.
  intros os fr1 fr2.
  apply (chord_tracking_ignores_the_keyboard Checked COMBO_MAP os fr1 fr2);
    reflexivity.
Defined.

(** ** More on the debouncer *)

Section Debounce.

Context (chk : struct_checks) (cfg : combo_map).

Lemma loop_body_accepted_frame levels now fr :
  scan_buttons levels ≠ last_state fr ->
  ticks_diff now (last_change fr) > DEBOUNCE_MS ->
  ∃ cs r, loop_body chk cfg levels now fr
          = (accepted (scan_buttons levels) now cs fr, r).
Proof.
  intros Hne Hlate.
  destruct (cfg !! scan_buttons levels) as [[modifier keycodes]|] eqn:He.
  - destruct (BLEKeyboard.key_press_report chk modifier keycodes)
      as [report|] eqn:Hr.
    + eexists _, _. by eapply loop_body_mapped.
    + eexists _, _. by eapply loop_body_raises.
  - eexists _, _. by apply loop_body_unmapped.
Qed.

Lemma loop_body_changes levels now fr :
  (loop_body chk cfg levels now fr).1 ≠ fr
  ↔ scan_buttons levels ≠ last_state fr
    ∧ ticks_diff now (last_change fr) > DEBOUNCE_MS.
Proof.
  destruct (decide (scan_buttons levels = last_state fr)) as [Heq|Hne].
  { rewrite loop_body_rejected by auto. cbn. tauto. }
  destruct (decide (ticks_diff now (last_change fr) <= DEBOUNCE_MS))
    as [Hsoon|Hlate].
  { rewrite loop_body_rejected by auto. cbn. split; [done|lia]. }
  destruct (loop_body_accepted_frame levels now fr) as (cs & r & ->);
    [done|lia|].
  cbn [fst]. split; [intros _; split; [done|lia]|].
  intros _ Hsame. apply Hne. by rewrite <- Hsame.
Qed.

Lemma run_same_sample levels (times : list Z) fr :
  scan_buttons levels = last_state fr ->
  run chk cfg (Tick levels <$> times) fr = (fr, Some tt).
Proof.
  intros Heq. induction times as [|now times IH]; [done|].
  rewrite fmap_cons, run_cons. cbn [step].
  by rewrite loop_body_rejected by auto.
Qed.

Lemma run_silent os fr :
  _connections (keyboard fr) = ∅ -> Forall is_tick os ->
  keyboard (run chk cfg os fr).1 = keyboard fr.
Proof.
  intros Hnone Hticks. revert fr Hnone.
  induction Hticks as [|[levels now|] os Ho _ IH]; intros fr Hnone;
    [done| |done].
  assert (Hn : ∀ report, notifications (keyboard fr) report = []).
  { intros report. unfold notifications. by rewrite Hnone, elements_empty. }
  rewrite run_cons. cbn [step].
  destruct (loop_body_cases chk cfg levels now fr)
    as [-> | (cs & r & -> & _ & _ & Hcs)]; [by apply IH|].
  assert (cs = []) as ->.
  { destruct Hcs as [-> | (report & _ & _ & _ & ->)]; by rewrite !Hn. }
  assert (Hk : keyboard (accepted (scan_buttons levels) now [] fr)
               = keyboard fr) by apply logged_nil.
  destruct r as [[]|]; [|done].
  rewrite IH; [done|]. by rewrite Hk.
Qed.

End Debounce.

(** X14.  With nobody connected and no connection event, a run of ticks
    leaves the keyboard object exactly as it was: no call at all reaches
    the BLE object, whatever chords are played. *)
Theorem run_without_connections_is_silent chk cfg os fr :
  _connections (keyboard fr) = ∅ ->
  Forall is_tick os ->
  keyboard (run chk cfg os fr).1 = keyboard fr
  ∧ history (run chk cfg os fr).1 = history fr.
Proof.
  intros Hnone Hticks. unfold history.
  by rewrite (run_silent chk cfg os fr Hnone Hticks).
Qed.

Lemma run_without_connections_is_silent_witness :
  let os := [ Tick [0; 1; 0; 1; 1; 1] 26; Tick [1; 1; 1; 1; 1; 1] 60 ] in
  let fr := main_start (10, 11, 12, 13) 0 in
  keyboard (run Checked COMBO_MAP os fr).1 = keyboard fr
  ∧ history (run Checked COMBO_MAP os fr).1 = history fr.
Proof.
  intros os fr.
  apply (run_without_connections_is_silent Checked COMBO_MAP os fr).
  - reflexivity.
  - repeat constructor.
Defined.

(** X15.  A held chord fires once.  After a tick whose sample is the
    stable chord or is accepted as the new one, any number of further
    ticks with the same reading, at whatever times, do nothing: the run
    ends where that first tick ended, with the same calls made. *)
Theorem held_chord_fires_once chk cfg fr levels now (times : list Z) :
  scan_buttons levels = last_state fr
  ∨ ticks_diff now (last_change fr) > DEBOUNCE_MS ->
  run chk cfg (Tick levels now :: (Tick levels <$> times)) fr
  = loop_body chk cfg levels now fr.
Proof.
  intros Hcase. rewrite run_cons. cbn [step].
  destruct (decide (scan_buttons levels = last_state fr)) as [Heq|Hne].
  - rewrite loop_body_rejected by auto. by apply run_same_sample.
  - destruct Hcase as [?|Hlate]; [done|].
    destruct (loop_body_accepted_frame chk cfg levels now fr)
      as (cs & r & ->); [done..|].
    destruct r as [[]|]; [|done]. by apply run_same_sample.
Qed.

Lemma held_chord_fires_once_witness :
  let fr := (run Checked COMBO_MAP [Interrupt 1 (7, 0, [])]
               (main_start (10, 11, 12, 13) 0)).1 in
  run Checked COMBO_MAP
    (Tick [0; 1; 0; 1; 1; 1] 26
     :: (Tick [0; 1; 0; 1; 1; 1] <$> [36; 46; 1000])) fr
  = loop_body Checked COMBO_MAP [0; 1; 0; 1; 1; 1] 26 fr.
Proof.
  intros fr.
  apply (held_chord_fires_once Checked COMBO_MAP fr [0; 1; 0; 1; 1; 1] 26).
  right. by_evaluation.
Defined.

(** X16.  The debounce window is measured correctly across a wrap of the
    tick counter.  If [d] ticks, fewer than half the tick period, have
    passed since the last change, then whatever the counter was and
    whether or not it wrapped in between, [ticks_diff] gives [d], and a
    differing sample is accepted exactly when [d] is more than
    [DEBOUNCE_MS]. *)
Theorem debounce_across_tick_wrap chk cfg fr levels d :
  0 <= last_change fr < TICKS_PERIOD ->
  0 <= d < TICKS_PERIOD / 2 ->
  scan_buttons levels ≠ last_state fr ->
  let now := (last_change fr + d) mod TICKS_PERIOD in
  ticks_diff now (last_change fr) = d
  ∧ ((loop_body chk cfg levels now fr).1 ≠ fr ↔ d > DEBOUNCE_MS).
Proof.
  intros Hsince Hd Hne now.
  assert (Hdiff : ticks_diff now (last_change fr) = d).
  { unfold ticks_diff, now. change TICKS_PERIOD with (2 ^ 30) in *.
    change (2 ^ 30 / 2) with (2 ^ 29) in *.
    rewrite <- Zplus_mod_idemp_l, Zminus_mod_idemp_l, Zplus_mod_idemp_l.
    replace (last_change fr + d - last_change fr + 2 ^ 29)
      with (d + 2 ^ 29) by lia.
    rewrite Z.mod_small by lia. lia. }
  split; [done|]. rewrite loop_body_changes, Hdiff. tauto.
Qed.

Lemma debounce_across_tick_wrap_witness :
  let fr := {| keyboard := BLEKeyboard.__init__ (10, 11, 12, 13) "ChordyPad";
               last_state := []; last_change := 2 ^ 30 - 10 |} in
  ticks_diff ((last_change fr + 30) mod TICKS_PERIOD) (last_change fr) = 30.
Proof.
  intros fr.
  apply (debounce_across_tick_wrap Checked COMBO_MAP fr
           [0; 1; 1; 1; 1; 1] 30); by_evaluation.
Defined.

(** ** The configured map and the loop *)

Lemma scan_from_released k levels :
  Forall (fun v => v ≠ 0) levels -> scan_from k levels = [].
Proof.
  intros Hup. revert k.
  induction Hup as [|v levels Hv _ IH]; intros k; [done|].
  cbn [scan_from]. by rewrite bool_decide_eq_false_2.
Qed.

(** X17.  Letting go of all buttons releases the keys and nothing else:
    when a reading with no pin at 0 is accepted after some chord, the
    chord of no buttons has no entry in [COMBO_MAP], so the tick sends
    the release-all report to every connection and ends without raising. *)
Theorem releasing_all_buttons chk levels now fr :
  Forall (fun v => v ≠ 0) levels ->
  last_state fr ≠ [] ->
  ticks_diff now (last_change fr) > DEBOUNCE_MS ->
  scan_buttons levels = []
  ∧ COMBO_MAP !! scan_buttons levels = None
  ∧ loop_body chk COMBO_MAP levels now fr
    = (accepted [] now
         (notifications (keyboard fr) [1; 0; 0; 0; 0; 0; 0; 0]) fr,
       Some tt).
Proof.
  intros Hup Hheld Hlate.
  assert (Hscan : scan_buttons levels = []) by by apply scan_from_released.
  split; [done|]. rewrite Hscan. split; [done|].
  pose proof (loop_body_unmapped chk COMBO_MAP levels now fr) as Hb.
  rewrite Hscan in Hb. apply Hb; done.
Qed.

Lemma releasing_all_buttons_witness :
  let fr := (run Checked COMBO_MAP
               [Interrupt 1 (7, 0, []); Tick [0; 1; 0; 1; 1; 1] 26]
               (main_start (10, 11, 12, 13) 0)).1 in
  loop_body Checked COMBO_MAP [1; 1; 1; 1; 1; 1] 60 fr
  = (accepted [] 60 [GattsNotify 7 10 [1; 0; 0; 0; 0; 0; 0; 0]] fr,
     Some tt).
Proof.
  intros fr.
  apply (releasing_all_buttons Checked [1; 1; 1; 1; 1; 1] 60 fr).
  - repeat constructor; by_evaluation.
  - by_evaluation.
  - by_evaluation.
Defined.

Lemma NoDup_fmap_elem_inj {A B} (f : A -> B) (l : list A) x y :
  NoDup (f <$> l) -> x ∈ l -> y ∈ l -> f x = f y -> x = y.
Proof.
  induction l as [|a l IH]; [by intros _ ?%elem_of_nil|].
  rewrite fmap_cons, NoDup_cons. intros [Ha Hnd].
  rewrite !elem_of_cons. intros [->|Hx] [->|Hy] Hf; [done| | |by apply IH].
  - destruct Ha. rewrite Hf. by apply list_elem_of_fmap_2.
  - destruct Ha. rewrite <- Hf. by apply list_elem_of_fmap_2.
Qed.

Lemma COMBO_MAP_entries_distinct :
  NoDup ((fun ce : chord * (Z * list Z) => ce.2)
           <$> map_to_list COMBO_MAP).
Proof. apply (bool_decide_unpack _). by vm_compute. Qed.

Lemma COMBO_MAP_keys :
  map_Forall (fun _ e => ∃ k, e.2 = [k] ∧ 4 <= k <= 101) COMBO_MAP.
Proof.
  unfold COMBO_MAP.
  repeat (apply map_Forall_insert_2;
          [eexists; split; [reflexivity|cbn; lia]|]).
  apply map_Forall_empty.
Qed.

(** X18.  The reports of [COMBO_MAP] tell the chords apart.  Each entry
    sends one key, with a code from 4 to 101, the range that the report
    map declares for a keycode slot; its report is never the release-all
    report; and two chords whose entries build the same report are the
    same chord. *)
Theorem combo_map_reports_are_distinct chk (c1 c2 : chord) modifier1
    keycodes1 modifier2 keycodes2 :
  COMBO_MAP !! c1 = Some (modifier1, keycodes1) ->
  COMBO_MAP !! c2 = Some (modifier2, keycodes2) ->
  (∃ k, keycodes1 = [k] ∧ 4 <= k <= 101)
  ∧ BLEKeyboard.key_press_report chk modifier1 keycodes1
    ≠ BLEKeyboard.release_all_report chk
  ∧ (BLEKeyboard.key_press_report chk modifier1 keycodes1
     = BLEKeyboard.key_press_report chk modifier2 keycodes2 ->
     c1 = c2).
Proof.
  intros H1 H2.
  destruct (COMBO_MAP_entries _ _ H1) as (Hm1 & Hk1 & Hl1).
  destruct (COMBO_MAP_entries _ _ H2) as (Hm2 & Hk2 & Hl2).
  destruct (COMBO_MAP_keys _ _ H1) as (k & Hk & Hrange).
  cbn in Hm1, Hk1, Hl1, Hm2, Hk2, Hl2, Hk.
  split; [by exists k|].
  rewrite !key_press_report_bytes by (done || lia).
  rewrite release_all_report_bytes, Hl1, Hl2. split.
  - subst keycodes1. intros [= _ ->]. lia.
  - intros [= -> Hpad]. apply app_inv_tail in Hpad. subst keycodes2.
    assert (Heq : (c1, (modifier2, keycodes1)) = (c2, (modifier2, keycodes1))).
    { apply (NoDup_fmap_elem_inj _ _ _ _ COMBO_MAP_entries_distinct);
        [by apply elem_of_map_to_list..|done]. }
    congruence.
Qed.

Lemma combo_map_reports_are_distinct_witness :
  BLEKeyboard.key_press_report Checked 0x02 [0x04]
  ≠ BLEKeyboard.release_all_report Checked.
Proof.
  apply (combo_map_reports_are_distinct Checked [0%nat; 2%nat]
           [1%nat; 3%nat] 0x02 [0x04] 0x02 [0x0B]); by_evaluation.
Defined.

(** ** [__init__] *)

(** X19.  What [__init__] leaves behind, for a non-empty name of fewer
    than 255 bytes and any handles the stack returns: it has activated
    the stack, registered the handler and the service, written the report
    map and the HID information to their handles, and last of all
    advertised, at the interval 100000, the very payload it stores.  That
    payload is a string of bytes, reads back as the name under type 0x09
    and the 16-bit UUID 0x1812 as the bytes 12 18 under type 0x03, and is
    six bytes longer than the name.  No peer is connected yet. *)
Theorem init_advertises_name_and_service report_handle report_map_handle
    info_handle control_handle name :
  name ≠ EmptyString ->
  (length (encode name) < 255)%nat ->
  let self :=
    BLEKeyboard.__init__
      (report_handle, report_map_handle, info_handle, control_handle) name in
  _ble self
  = [ Active true; IrqHandler; GattsRegisterServices;
      GattsWrite report_map_handle _HID_REPORT_MAP;
      GattsWrite info_handle _HID_INFO;
      GapAdvertise 100000 (_payload self) ]
  ∧ ad_records (_payload self)
    = Some [(0x09, encode name); (0x03, [0x12; 0x18])]
  ∧ Forall is_byte (_payload self)
  ∧ length (_payload self) = (length (encode name) + 6)%nat
  ∧ _report_handle self = report_handle
  ∧ _connections self = ∅.
Proof.
  intros Hname Hshort self. split; [done|].
  assert (Hp : _payload self
               = concat (ad_record_bytes
                           <$> [(0x09, encode name); (0x03, [0x12; 0x18])])).
  { unfold self. cbn [BLEKeyboard.__init__ _payload].
    rewrite advertising_payload_bytes. cbn [name_record].
    by rewrite bool_decide_eq_false_2. }
  split; [|split; [|split; [|done]]].
  - rewrite Hp. unfold ad_records.
    apply ad_records_from_bytes, length_ad_records_bytes.
  - rewrite Hp. apply ad_record_bytes_bytes.
    apply Forall_cons. split.
    { cbn. split; [unfold is_byte; lia|]. split; [apply encode_bytes|done]. }
    apply Forall_cons. split; [|apply Forall_nil_2].
    cbn. split; [unfold is_byte; lia|].
    split; [|lia].
    repeat (apply Forall_cons; split; [unfold is_byte; lia|]).
    apply Forall_nil_2.
  - rewrite Hp. cbn. rewrite length_app. cbn. lia.
Qed.

Lemma init_advertises_name_and_service_witness :
  ad_records (_payload (BLEKeyboard.__init__ (10, 11, 12, 13) "ChordyPad"))
  = Some [(0x09, encode "ChordyPad"); (0x03, [0x12; 0x18])].
Proof.
  apply (init_advertises_name_and_service 10 11 12 13 "ChordyPad").
  - discriminate.
  - cbn; lia.
Defined.
